(** * Result.js: the query-result panel of the hyperglass UI

    A shallow embedding of [src/ui/components/Result.js] and of the
    JavaScript built-ins it calls, followed by the properties of the panel.

    Conventions.
    - A JavaScript string is a [string]: a sequence of code units below 256.
      Rocq string literals have no escapes, so the JavaScript literal
      ["\\n"] (backslash, n) is written ["\n"] here and the JavaScript
      literal ["\n"] (one line feed) is [nl].
    - Values that arrive from the network ([data], [error]) are dynamically
      typed [JS.value]s; what the application itself supplies (the
      configuration, the device) is a record.
    - Code that can throw returns a [result]. *)

From Stdlib Require Import List Bool Arith ZArith Lia Ascii String.
Import ListNotations.
Set Warnings "-register-all".
Open Scope list_scope.
Open Scope string_scope.

(* ================================================================== *)
(** * Results of fallible code *)

Inductive exn : Type :=
| TypeError
| SyntaxError.

(** [Unmodelled]: the input leaves the fragment of JavaScript embedded here
    (a regular-expression operator other than literals, [.], [|] and groups;
    a capture left undefined by [split]).  Nothing is claimed about it. *)
Inductive result (A : Type) : Type :=
| Ok (a : A)
| Throw (e : exn)
| Unmodelled.

Arguments Ok {A} a.
Arguments Throw {A} e.
Arguments Unmodelled {A}.

Definition bind {A B : Type} (m : result A) (k : A -> result B) : result B :=
  match m with
  | Ok a => k a
  | Throw e => Throw e
  | Unmodelled => Unmodelled
  end.

Notation "x <- m ;; k" := (bind m (fun x => k))
  (at level 61, m at next level, right associativity).

(* ================================================================== *)
(** * The JavaScript fragment used by the component *)

Module JS.

(** ** Values *)

(** Numbers are integers (what JSON integers parse to); [VFun] is an opaque
    function handle such as the hook's [refetch]. *)
Inductive value : Type :=
| VUndefined
| VNull
| VBool (b : bool)
| VNum (n : Z)
| VStr (s : string)
| VArr (items : list value)
| VObj (fields : list (string * value))
| VFun (name : string).

(** ToBoolean. *)
Definition truthy (v : value) : bool :=
  match v with
  | VUndefined | VNull => false
  | VBool b => b
  | VNum n => negb (n =? 0)%Z
  | VStr s => negb (s =? "")
  | VArr _ | VObj _ | VFun _ => true
  end.

(** [a && b] and [a || b]; every right operand in the component is free of
    effects, so evaluating it eagerly changes nothing. *)
Definition and_ (a b : value) : value := if truthy a then b else a.
Definition or_ (a b : value) : value := if truthy a then a else b.

Definition nullish (v : value) : bool :=
  match v with
  | VUndefined | VNull => true
  | _ => false
  end.

Fixpoint lookup (k : string) (fields : list (string * value)) : value :=
  match fields with
  | [] => VUndefined
  | (k', v) :: rest => if k' =? k then v else lookup k rest
  end.

(** [v.k] for a [v] that is neither null nor undefined.  The names the
    component reads ([response], [data], [output], [keywords], [alert],
    [message]) are properties of no primitive, array or function, so only an
    object can answer.  The component reads a member either behind a
    truthiness guard or through [?.]; on a nullish [v] JavaScript throws and
    this function is not used. *)
Definition member (v : value) (k : string) : value :=
  match v with
  | VObj fields => lookup k fields
  | _ => VUndefined
  end.

(** [v?.k]. *)
Definition opt_member (v : value) (k : string) : value :=
  if nullish v then VUndefined else member v k.

(** ** Strings *)

Definition LF : ascii := ascii_of_nat 10.
Definition CR : ascii := ascii_of_nat 13.

(** The one-character string holding a line feed: JavaScript's ["\n"]. *)
Definition nl : string := String LF "".

(** [Array.prototype.join] on an array of strings. *)
Definition join (sep : string) (parts : list string) : string :=
  String.concat sep parts.

Fixpoint drop (n : nat) (s : string) : string :=
  match n, s with
  | O, _ => s
  | S _, "" => ""
  | S k, String _ s' => drop k s'
  end.

(** ** The split loop of [String.prototype.split]

    ECMAScript runs one loop for string and regular-expression separators:
    with [p] the start of the pending piece and [q] the scan position, match
    the separator at [q]; on failure, or when the match ends at [p], advance
    [q]; otherwise push [S[p..q)] and the captures and restart at the end
    [e] of the match.  Here [s] is the suffix at [q], [acc] is [S[p..q)],
    and [skip] counts the characters still to pass to reach [e].
    [splitter s] matches at the start of [s] and returns the length of the
    match with its captures. *)
Section SplitLoop.

Context {A : Type} (inj : string -> A).
Context (splitter : string -> option (nat * list A)).

Fixpoint split_loop (s : string) (skip : nat) (acc : string) : list A :=
  match s with
  | "" => [inj acc]
  | String c s' =>
      match skip with
      | S k => split_loop s' k acc
      | O =>
          match splitter s with
          | None => split_loop s' 0 (acc ++ String c "")%string
          | Some (O, caps) =>
              match acc with
              | "" => split_loop s' 0 (String c "")
              | _ => (inj acc :: caps ++ split_loop s' 0 (String c ""))%list
              end
          | Some (S k, caps) => (inj acc :: caps ++ split_loop s' k "")%list
          end
      end
  end.

Definition split_with (s : string) : list A :=
  match s with
  | "" => match splitter "" with
          | Some _ => []
          | None => [inj ""]
          end
  | _ => split_loop s 0 ""
  end.

End SplitLoop.

(** [s.split(sep)] for a string separator. *)
Definition split (sep s : string) : list string :=
  split_with (fun piece => piece)
    (fun rest => if prefix sep rest then Some (length sep, []) else None) s.

(** ** Regular expressions

    The fragment of the pattern language embedded here: literal characters,
    [.], alternation [|] and capture groups [( )].  Quantifiers, classes,
    escapes and assertions are outside it. *)

Inductive regex : Type :=
| Empty
| Char (c : ascii)
| Dot
| Seq (r1 r2 : regex)
| Alt (r1 r2 : regex)
| Group (r : regex).

(** A compiled [RegExp] with the two flags the component uses. *)
Record regexp : Type := mkRegExp {
  ast : regex;
  global : bool;
  ignoreCase : bool
}.

(** *** Parsing a pattern *)

(** Pattern characters that start a construct outside the fragment. *)
Definition unmodelled_char (c : ascii) : bool :=
  existsb (Ascii.eqb c)
    (list_ascii_of_string "\^$*+?[]{}").

(** The syntax characters of the fragment itself. *)
Definition fragment_operator (c : ascii) : bool :=
  existsb (Ascii.eqb c) (list_ascii_of_string "().|").

(** SyntaxCharacter of the ECMAScript pattern grammar. *)
Definition syntax_char (c : ascii) : bool :=
  unmodelled_char c || fragment_operator c.

(** A disjunction under construction: the alternatives already closed by a
    [|] and the terms of the current one, both most recent first. *)
Record frame : Type := mkFrame {
  closed : list regex;
  terms : list regex
}.

Definition empty_frame : frame := mkFrame [] [].

Definition push_term (t : regex) (f : frame) : frame :=
  mkFrame (closed f) (t :: terms f).

(** An Alternative is the sequence of its terms. *)
Definition alternative (ts : list regex) : regex :=
  fold_right Seq Empty ts.

Definition next_alternative (f : frame) : frame :=
  mkFrame (alternative (rev (terms f)) :: closed f) [].

(** A Disjunction tries its alternatives from left to right. *)
Fixpoint disjunction (first : regex) (others : list regex) : regex :=
  match others with
  | [] => first
  | r :: rs => Alt first (disjunction r rs)
  end.

Definition close_frame (f : frame) : regex :=
  match rev (alternative (rev (terms f)) :: closed f) with
  | [] => Empty
  | first :: others => disjunction first others
  end.

Inductive parsed : Type :=
| Parsed (r : regex)
| Invalid
| OutsideFragment.

(** One pass over the pattern with a stack of open groups. *)
Fixpoint parse_loop (s : string) (top : frame) (stack : list frame) : parsed :=
  match s with
  | "" =>
      match stack with
      | [] => Parsed (close_frame top)
      | _ :: _ => Invalid
      end
  | String c s' =>
      if Ascii.eqb c "(" then parse_loop s' empty_frame (top :: stack)
      else if Ascii.eqb c ")" then
        match stack with
        | [] => Invalid
        | parent :: below =>
            parse_loop s' (push_term (Group (close_frame top)) parent) below
        end
      else if Ascii.eqb c "|" then parse_loop s' (next_alternative top) stack
      else if Ascii.eqb c "." then parse_loop s' (push_term Dot top) stack
      else if unmodelled_char c then OutsideFragment
      else parse_loop s' (push_term (Char c) top) stack
  end.

Definition parse (pattern : string) : parsed :=
  parse_loop pattern empty_frame [].

(** The flags [g] and [i], each at most once; a repeated flag is a
    SyntaxError, and the other flags are outside the fragment. *)
Fixpoint parse_flags (flags : string) (g i : bool) : result (bool * bool) :=
  match flags with
  | "" => Ok (g, i)
  | String c rest =>
      if Ascii.eqb c "g" then
        if g then Throw SyntaxError else parse_flags rest true i
      else if Ascii.eqb c "i" then
        if i then Throw SyntaxError else parse_flags rest g true
      else Unmodelled
  end.

(** [new RegExp(pattern, flags)]: throws a SyntaxError on an invalid
    pattern. *)
Definition RegExp (pattern flags : string) : result regexp :=
  gi <- parse_flags flags false false ;;
  match parse pattern with
  | Parsed r => Ok (mkRegExp r (fst gi) (snd gi))
  | Invalid => Throw SyntaxError
  | OutsideFragment => Unmodelled
  end.

(** *** Matching *)

(** Canonicalize of a code unit below 256 under the [i] flag: its upper
    case when that is a single code unit.  [a-z] and the Latin-1 letters
    E0..FE (F7, the division sign, apart) move down by 32; B5 and FF have
    their upper case above 255, where no character of this model maps. *)
Definition canonicalize (c : ascii) : ascii :=
  let n := nat_of_ascii c in
  if ((97 <=? n)%nat && (n <=? 122)%nat) ||
     ((224 <=? n)%nat && (n <=? 254)%nat && negb (n =? 247)%nat)
  then ascii_of_nat (n - 32)
  else c.

Definition char_eq (ic : bool) (a b : ascii) : bool :=
  if ic then Ascii.eqb (canonicalize a) (canonicalize b) else Ascii.eqb a b.

(** LineTerminator, which [.] does not match. *)
Definition line_terminator (c : ascii) : bool :=
  Ascii.eqb c LF || Ascii.eqb c CR.

(** The number of capture groups of a pattern. *)
Fixpoint groups (r : regex) : nat :=
  match r with
  | Empty | Char _ | Dot => 0
  | Seq r1 r2 | Alt r1 r2 => groups r1 + groups r2
  | Group r1 => S (groups r1)
  end.

(** A capture is the text its group matched, or undefined. *)
Definition capture : Type := option string.

Definition undefined_captures (n : nat) : list capture := repeat None n.

(** A way to match a prefix of the input: the matched text, the rest of the
    input and the captures, one per group in the order of the opening
    parentheses. *)
Definition matching : Type := (string * string * list capture)%type.

(** All the ways [r] matches a prefix of [s], in the order the backtracking
    matcher of ECMAScript tries them: the alternatives of a disjunction from
    left to right, and for a sequence every continuation of an earlier match
    of its head before any later one. *)
Fixpoint run (ic : bool) (r : regex) (s : string) : list matching :=
  match r with
  | Empty => [("", s, [])]
  | Char c =>
      match s with
      | String d s' => if char_eq ic d c then [(String d "", s', [])] else []
      | "" => []
      end
  | Dot =>
      match s with
      | String d s' => if line_terminator d then [] else [(String d "", s', [])]
      | "" => []
      end
  | Seq r1 r2 =>
      flat_map
        (fun m1 : matching =>
           let '(t1, s1, c1) := m1 in
           map (fun m2 : matching =>
                  let '(t2, s2, c2) := m2 in
                  ((t1 ++ t2)%string, s2, (c1 ++ c2)%list))
               (run ic r2 s1))
        (run ic r1 s)
  | Alt r1 r2 =>
      (map (fun m : matching =>
              let '(t, s', c) := m in
              (t, s', (c ++ undefined_captures (groups r2))%list))
           (run ic r1 s)
       ++
       map (fun m : matching =>
              let '(t, s', c) := m in
              (t, s', (undefined_captures (groups r1) ++ c)%list))
           (run ic r2 s))%list
  | Group r1 =>
      map (fun m : matching =>
             let '(t, s', c) := m in (t, s', Some t :: c))
          (run ic r1 s)
  end.

(** The match at the start of [s], if any: what the matcher returns for a
    sticky [exec] at that position. *)
Definition match_at (re : regexp) (s : string) : option (string * list capture) :=
  match run (ignoreCase re) (ast re) s with
  | [] => None
  | (t, _, caps) :: _ => Some (t, caps)
  end.

(** [s.split(re)]: the pieces between matches, each match followed by its
    captures. *)
Definition split_regexp (re : regexp) (s : string) : list capture :=
  split_with Some
    (fun rest =>
       match match_at re rest with
       | Some (t, caps) => Some (String.length t, caps)
       | None => None
       end) s.

(** [s.replace(re, replacement)] for a global [re] and a replacement
    without [$] substitutions: every match, found from left to right after
    the end of the previous one, gives way to the replacement; after an
    empty match the scan moves on by one character. *)
Fixpoint replace_loop (re : regexp) (replacement s : string) (skip : nat) : string :=
  match s with
  | "" =>
      match skip, match_at re "" with
      | O, Some _ => replacement
      | _, _ => ""
      end
  | String c s' =>
      match skip with
      | S k => replace_loop re replacement s' k
      | O =>
          match match_at re s with
          | None => String c (replace_loop re replacement s' 0)
          | Some (t, _) =>
              match String.length t with
              | O => replacement ++ String c (replace_loop re replacement s' 0)
              | S k => replacement ++ replace_loop re replacement s' k
              end
          end
      end
  end.

Definition replace_all (re : regexp) (replacement s : string) : string :=
  replace_loop re replacement s 0.

End JS.


Import JS.

(* ================================================================== *)
(** * react-string-replace *)

Module ReactStringReplace.

Section Replace.

Context {N : Type} (text : string -> N) (fn : string -> N).

(** The loop of [replaceString] over the array returned by [split]:
    [for (i = 1; i < length; i += 2) result[i] = fn(result[i], ...)].  The
    elements at even indices stay strings.  What the loop does with an
    undefined capture depends on the release of the library and is left
    out. *)
Fixpoint apply_odd (pieces : list capture) : result (list N) :=
  match pieces with
  | [] => Ok []
  | [Some s] => Ok [text s]
  | Some s :: Some m :: rest =>
      tail <- apply_odd rest ;; Ok (text s :: fn m :: tail)
  | _ => Unmodelled
  end.

(** [replaceString(str, match, fn)] for a [match] that is a RegExp; the
    empty string is returned as it is. *)
Definition replaceString (str : string) (re : regexp) : result (list N) :=
  if str =? "" then Ok [text str]
  else apply_odd (split_regexp re str).

(** [reactStringReplace(source, match, fn)] for a [source] that is one
    string: [flatten([replaceString(source, match, fn)])]. *)
Definition strReplace (source : string) (re : regexp) : result (list N) :=
  replaceString source re.

End Replace.

End ReactStringReplace.

Import ReactStringReplace.

(* ================================================================== *)
(** * The component *)

(** ** FormattedError (Result.js, lines 23-32) *)

(** A child of the [<Text>] that [FormattedError] returns: a string, or
    [<Text key={match} as="strong">{match}</Text>]. *)
Inductive fragment : Type :=
| Plain (s : string)
| Strong (key : string) (s : string).

Definition fragment_text (f : fragment) : string :=
  match f with
  | Plain s => s
  | Strong _ s => s
  end.

(** The text a list of fragments displays. *)
Definition text_content (fs : list fragment) : string :=
  String.concat "" (map fragment_text fs).

Definition patternStr (keywords : list string) : string :=
  "(" ++ join "|" keywords ++ ")".

(** [FormattedError({ keywords, message })]: the children of the returned
    [<Text>]. *)
Definition FormattedError (keywords : list string) (message : string)
  : result (list fragment) :=
  pattern <- RegExp (patternStr keywords) "gi" ;;
  strReplace Plain (fun matched => Strong matched matched) message pattern.

(** ** Result (Result.js, lines 44-141) *)

Record Device : Type := { display_name : string }.

Record Messages : Type := { general : string }.

Record Config : Type := { messages : Messages }.

Record Props : Type := {
  device : Device;
  timeout : value;
  queryLocation : value;
  queryType : value;
  queryVrf : value;
  queryTarget : value
}.

Module Axios.

(** The request configuration handed to [useAxios]. *)
Record config : Type := {
  url : string;
  method : string;
  data : value;
  timeout : value
}.

End Axios.

(** What [useAxios] returns beside [refetch]. *)
Record FetchState : Type := {
  data : value;
  loading : bool;
  error : value
}.

(** A rendered tree: an element with its props and children, or a
    JavaScript value in child position.  Props of layout and styling
    (spacing, colours, [css], [ref]) are left out. *)
Inductive element : Type :=
| Elem (tag : string) (props : list (string * value)) (children : list element)
| Expr (v : value).

(** [{cond && (<el/>)}]. *)
Definition when (cond : value) (el : element) : element :=
  if truthy cond then el else Expr cond.

(** Lines 53-63: the argument of [useAxios]. *)
Definition requestConfig (p : Props) : Axios.config :=
  {| Axios.url := "/api/query";
     Axios.method := "post";
     Axios.data :=
       VObj [("query_location", queryLocation p);
             ("query_type", queryType p);
             ("query_vrf", queryVrf p);
             ("query_target", queryTarget p)];
     Axios.timeout := timeout p |}.

(** The regular-expression literal [/\n\n/g]: two line feeds. *)
Definition blank_line : regexp :=
  mkRegExp (alternative [Char LF; Char LF]) true false.

(** The chain applied to [data.output] on lines 66-69. *)
Definition normalize (output : string) : string :=
  replace_all blank_line "" (join nl (split "\n" output)).

(** Lines 64-69.  Calling [split] on an [output] that is no string throws a
    TypeError. *)
Definition cleanOutput (data : value) : result value :=
  if truthy data then
    match member data "output" with
    | VStr output => Ok (VStr (normalize output))
    | _ => Throw TypeError
    end
  else Ok data.

(** [error.response?.data?.field]. *)
Definition response_data (error : value) (field : string) : value :=
  opt_member (opt_member (member error "response") "data") field.

(** Line 71. *)
Definition errorKw (error : value) : value :=
  or_ (and_ error (response_data error "keywords")) (VArr []).

(** Lines 72-75. *)
Definition errorMsg (config : Config) (error : value) : value :=
  or_ (or_ (and_ error (response_data error "output"))
           (and_ error (member error "message")))
      (VStr (general (messages config))).

(** Line 130: the [status] of the alert. *)
Definition alertStatus (error : value) : value :=
  or_ (response_data error "alert") (VStr "error").

(** The function returned by [useAxios]. *)
Definition refetch : value := VFun "refetch".

(** Lines 76-139: the tree of the [return] statement, from the values
    computed above it. *)
Definition view (config : Config) (p : Props) (st : FetchState)
  (cleanOutput : value) : element :=
  Elem "AccordionItem" [("isDisabled", VBool (loading st))]
    [Elem "AccordionHeaderWrapper" []
       [Elem "AccordionHeader" []
          [Elem "ResultHeader"
             [("title", VStr (display_name (device p)));
              ("loading", VBool (loading st));
              ("error", error st)] []];
        Elem "ButtonGroup" []
          [Elem "CopyButton"
             [("copyValue", cleanOutput); ("variant", VStr "ghost")] [];
           Elem "RequeryButton"
             [("requery", refetch); ("variant", VStr "ghost")] []]];
     Elem "AccordionPanel" []
       [Elem "Flex" []
          [Elem "Flex" []
             [when (data st) (Elem "Box" [] [Expr cleanOutput]);
              when (error st)
                (Elem "Alert" [("status", alertStatus (error st))]
                   [Elem "FormattedError"
                      [("keywords", errorKw (error st));
                       ("message", errorMsg config (error st))] []])]]]].

(** The body of the component for one state of the hook. *)
Definition Result (config : Config) (p : Props) (st : FetchState)
  : result element :=
  cleanOutput <- cleanOutput (data st) ;;
  Ok (view config p st cleanOutput).

(** ** Reading a rendered tree *)

Definition tag_of (e : element) : string :=
  match e with
  | Elem t _ _ => t
  | Expr _ => ""
  end.

Definition props_of (e : element) : list (string * value) :=
  match e with
  | Elem _ ps _ => ps
  | Expr _ => []
  end.

(** The value of a prop of an element, when the element was given it. *)
Fixpoint prop_in (name : string) (ps : list (string * value)) : option value :=
  match ps with
  | [] => None
  | (k, v) :: rest => if k =? name then Some v else prop_in name rest
  end.

Definition prop (name : string) (e : element) : option value :=
  prop_in name (props_of e).

(** The elements of a tree with a given tag, in document order. *)
Fixpoint find (tag : string) (e : element) : list element :=
  match e with
  | Elem t _ cs =>
      ((if t =? tag then [e] else []) ++ flat_map (find tag) cs)%list
  | Expr _ => []
  end.

Definition renders (tag : string) (e : element) : bool :=
  match find tag e with
  | [] => false
  | _ :: _ => true
  end.

(** Chakra's convention for a disabled control: a truthy [isDisabled]. *)
Definition disabled (e : element) : bool :=
  match prop "isDisabled" e with
  | Some v => truthy v
  | None => false
  end.

(** ** The fetch hook and the retry button *)

Module Hook.

Inductive cause : Type :=
| TimedOut
| OtherFailure.

Inductive outcome : Type :=
| Succeeded (body : value)
| Failed (why : cause) (err : value).

(** A mounted panel: the state the hook shows and the requests it has
    issued, oldest first. *)
Record instance : Type := {
  state : FetchState;
  sent : list Axios.config
}.

(** Modelled from the spec: [useAxios] of the axios-hooks package is not
    under src/.  "Perform one POST request per mount/retry"; "one
    asynchronous network request is outstanding at a time".  A new request
    shows the loading state with no error; what an earlier response left in
    [data] stays until the next response, as in the package. *)
Definition issue (cfg : Axios.config) (shown : value)
  (earlier : list Axios.config) : instance :=
  {| state := {| data := shown; loading := true; error := VNull |};
     sent := (earlier ++ [cfg])%list |}.

(** Modelled from the spec: mounting the panel issues the first request
    ("triggers an HTTP POST to a query endpoint on mount"). *)
Definition mount (cfg : Axios.config) : instance := issue cfg VUndefined [].

(** Modelled from the spec: the [refetch] function that [useAxios] returns
    issues the hook's request again. *)
Definition call_refetch (cfg : Axios.config) (inst : instance) : instance :=
  issue cfg (data (state inst)) (sent inst).

(** Modelled from the spec: how [useAxios] settles.  "On timeout the hook
    surfaces an error through the same error-rendering path as any other
    failure": the cause of a failure plays no part. *)
Definition settle (o : outcome) (inst : instance) : instance :=
  match o with
  | Succeeded body =>
      {| state := {| data := body; loading := false; error := VNull |};
         sent := sent inst |}
  | Failed _ err =>
      {| state := {| data := data (state inst); loading := false; error := err |};
         sent := sent inst |}
  end.

(** Modelled from the spec: the [RequeryButton] component is not under
    src/.  "Invoking the retry action re-issues the same request; no
    debouncing or backoff": a click calls the [requery] prop at once. *)
Definition click_requery (button : element) (cfg : Axios.config)
  (inst : instance) : instance :=
  match prop "requery" button with
  | Some (VFun f) => if f =? "refetch" then call_refetch cfg inst else inst
  | _ => inst
  end.

End Hook.

(** The retry action on a mounted panel: a click on the [RequeryButton] of
    the tree rendered for the current state. *)
Definition retry (config : Config) (p : Props) (inst : Hook.instance)
  : result Hook.instance :=
  tree <- Result config p (Hook.state inst) ;;
  match find "RequeryButton" tree with
  | [button] => Ok (Hook.click_requery button (requestConfig p) inst)
  | _ => Ok inst
  end.

(** What can happen to a mounted panel. *)
Inductive event : Type :=
| Settle (o : Hook.outcome)
| Retry.

Definition step (config : Config) (p : Props) (inst : Hook.instance)
  (ev : event) : result Hook.instance :=
  match ev with
  | Settle o => Ok (Hook.settle o inst)
  | Retry => retry config p inst
  end.

Fixpoint steps (config : Config) (p : Props) (inst : Hook.instance)
  (evs : list event) : result Hook.instance :=
  match evs with
  | [] => Ok inst
  | ev :: rest => next <- step config p inst ev ;; steps config p next rest
  end.

Definition is_retry (ev : event) : bool :=
  match ev with
  | Retry => true
  | Settle _ => false
  end.

Definition set_loading (flag : bool) (st : FetchState) : FetchState :=
  {| data := data st; loading := flag; error := error st |}.

(* ================================================================== *)
(** * Vocabulary of the properties *)

(** ** Blank lines *)

(** A blank line: two line feeds in a row. *)
Fixpoint has_blank_line (s : string) : bool :=
  match s with
  | String c (String d _ as s') =>
      (Ascii.eqb c LF && Ascii.eqb d LF) || has_blank_line s'
  | _ => false
  end.

(** Reading from the left, drop each pair of adjacent line feeds. *)
Fixpoint delete_pairs (s : string) : string :=
  match s with
  | "" => ""
  | String c s' =>
      match s' with
      | String d s'' =>
          if Ascii.eqb c LF && Ascii.eqb d LF then delete_pairs s''
          else String c (delete_pairs s')
      | "" => String c ""
      end
  end.

(** ** Keywords as patterns *)

Definition chars (s : string) : list ascii := list_ascii_of_string s.

(** A keyword without any syntax character of the pattern language. *)
Definition plain_keyword (k : string) : bool :=
  forallb (fun c => negb (syntax_char c)) (chars k).

(** A character that opens or closes no group and stays inside the
    fragment: a literal, [.] or [|]. *)
Definition flat_char (c : ascii) : bool :=
  negb (unmodelled_char c) && negb (Ascii.eqb c "(") && negb (Ascii.eqb c ")").

Definition flat_pattern (s : string) : bool := forallb flat_char (chars s).

(** The pattern that matches the characters of [k] one after the other. *)
Definition literal (k : string) : regex := alternative (map Char (chars k)).

(** The alternation of the keywords [k :: ks], tried in that order. *)
Definition any_of (k : string) (ks : list string) : regex :=
  disjunction (literal k) (map literal ks).

(** The effect of the parser on the open disjunction for a character that
    is neither a parenthesis nor outside the fragment. *)
Definition scan_char (c : ascii) (f : frame) : frame :=
  if Ascii.eqb c "|" then next_alternative f
  else if Ascii.eqb c "." then push_term Dot f
  else push_term (Char c) f.

Fixpoint scan (s : string) (f : frame) : frame :=
  match s with
  | "" => f
  | String c s' => scan s' (scan_char c f)
  end.

Fixpoint take (n : nat) (s : string) : string :=
  match n, s with
  | O, _ => ""
  | S _, "" => ""
  | S k, String c s' => String c (take k s')
  end.

(** [k] matches at the start of [s], character by character. *)
Fixpoint prefix_match (ic : bool) (k s : string) : bool :=
  match k with
  | "" => true
  | String c k' =>
      match s with
      | String d s' => char_eq ic d c && prefix_match ic k' s'
      | "" => false
      end
  end.

(** Equal up to the case of the letters. *)
Fixpoint same_ignoring_case (a b : string) : bool :=
  match a, b with
  | "", "" => true
  | String c a', String d b' => char_eq true c d && same_ignoring_case a' b'
  | _, _ => false
  end.

(** [k] occurs somewhere in [s], whatever the case of its letters. *)
Fixpoint mentions (k s : string) : bool :=
  prefix_match true k s ||
  match s with
  | String _ s' => mentions k s'
  | "" => false
  end.

Definition nonempty (s : string) : bool := negb (s =? "").

(** Plain text and emphasised matches in turn, plain text first and
    last. *)
Fixpoint alternating (fs : list fragment) : bool :=
  match fs with
  | [Plain _] => true
  | Plain _ :: Strong _ _ :: rest => alternating rest
  | _ => false
  end.

Definition is_strong (f : fragment) : bool :=
  match f with
  | Strong _ _ => true
  | Plain _ => false
  end.

(** A pattern without capture groups. *)
Definition groupless (r : regex) : Prop := groups r = 0.

(** ** The array returned by [split] *)

(** The text of the pieces, in order. *)
Fixpoint joined (l : list capture) : string :=
  match l with
  | [] => ""
  | Some s :: rest => s ++ joined rest
  | None :: rest => joined rest
  end.

(** Pieces between matches, each satisfying [P], with one match satisfying
    [M] between any two. *)
Inductive pieces (P M : string -> Prop) : list capture -> Prop :=
| pieces_last p :
    P p -> pieces P M [Some p]
| pieces_more p m rest :
    P p -> M m -> pieces P M rest -> pieces P M (Some p :: Some m :: rest).

(** [k] matches at a position inside [acc] when [acc] is followed by
    [s]. *)
Fixpoint starts_in (k acc s : string) : bool :=
  match acc with
  | "" => false
  | String _ acc' => prefix_match true k (acc ++ s) || starts_in k acc' s
  end.

(** ** Sample inputs *)

Definition sample_config : Config :=
  {| messages := {| general := "Something went wrong." |} |}.

Definition sample_props : Props :=
  {| device := {| display_name := "Router 1" |};
     timeout := VNum 5000;
     queryLocation := VStr "router1";
     queryType := VStr "bgp_route";
     queryVrf := VStr "default";
     queryTarget := VStr "192.0.2.0/24" |}.

(** The hook state after a successful query followed by a failed one that
    left the earlier data in place. *)
Definition stale_data_and_error : FetchState :=
  {| data := VObj [("output", VStr "ok")];
     loading := false;
     error := VObj [("message", VStr "Network Error")] |}.

Definition network_error : FetchState :=
  {| data := VUndefined;
     loading := false;
     error := VObj [("message", VStr "Network Error")] |}.

Definition rejected_query : FetchState :=
  {| data := VUndefined;
     loading := false;
     error :=
       VObj [("message", VStr "Request failed with status code 400");
             ("response",
              VObj [("data",
                     VObj [("output", VStr "192.0.2.0/24 is not allowed");
                           ("keywords", VArr [VStr "192.0.2.0/24"]);
                           ("alert", VStr "warning")])])] |}.

Definition first_load : FetchState :=
  {| data := VUndefined; loading := true; error := VNull |}.

Definition answered : FetchState :=
  {| data := VObj [("output", VStr "line 1\nline 2")];
     loading := false;
     error := VNull |}.

(** ** Escaped line breaks and runs of line feeds *)

(** Reading from the left, turn each backslash followed by [n] into one
    line feed. *)
Fixpoint unescape (s : string) : string :=
  match s with
  | "" => ""
  | String c s' =>
      match s' with
      | String d s'' =>
          if Ascii.eqb c "\" && Ascii.eqb d "n" then String LF (unescape s'')
          else String c (unescape s')
      | "" => String c ""
      end
  end.

(** A backslash followed by [n] somewhere in [s]. *)
Fixpoint has_escape (s : string) : bool :=
  match s with
  | String c (String d _ as s') =>
      (Ascii.eqb c "\" && Ascii.eqb d "n") || has_escape s'
  | _ => false
  end.

Fixpoint has_line_feed (s : string) : bool :=
  match s with
  | "" => false
  | String c s' => Ascii.eqb c LF || has_line_feed s'
  end.

Definition starts_with_line_feed (s : string) : bool :=
  match s with
  | String c _ => Ascii.eqb c LF
  | "" => false
  end.

(** [k] line feeds in a row. *)
Fixpoint newlines (k : nat) : string :=
  match k with
  | O => ""
  | S k' => String LF (newlines k')
  end.

(** ** More sample inputs *)

(** A response body that is not the object the component expects. *)
Definition malformed_answer : FetchState :=
  {| data := VObj [("result", VStr "ok")]; loading := false; error := VNull |}.

(** A failure whose [response] is there but carries no [data]. *)
Definition bare_response : FetchState :=
  {| data := VUndefined;
     loading := false;
     error := VObj [("message", VStr "Request failed with status code 502");
                    ("response", VObj [("status", VNum 502)])] |}.

(** ** Keywords as patterns of their own *)

(** The pattern a parenthesis-free keyword stands for when it is parsed by
    itself. *)
Definition keyword_pattern (k : string) : regex :=
  close_frame (scan k empty_frame).

(** The alternatives of a disjunction under construction, oldest first. *)
Definition alternatives_of (f : frame) : list regex :=
  rev (alternative (rev (terms f)) :: closed f).

(** The pattern matches at the start of [s]. *)
Definition matches_here (re : regexp) (s : string) : bool :=
  match match_at re s with
  | Some _ => true
  | None => false
  end.

(** The pattern matches at some position of [p], its end included. *)
Fixpoint finds (re : regexp) (p : string) : bool :=
  matches_here re p ||
  match p with
  | String _ p' => finds re p'
  | "" => false
  end.

(** The pattern matches at a position inside [acc] when [acc] is followed
    by [s]. *)
Fixpoint matches_in (re : regexp) (acc s : string) : bool :=
  match acc with
  | "" => false
  | String _ acc' => matches_here re (acc ++ s) || matches_in re acc' s
  end.

(** The matches of a list that fit into [p], each with what is left of
    [p] after it. *)
Definition restrict (p : string) (l : list matching) : list matching :=
  flat_map
    (fun m : matching =>
       let '(t, _, c) := m in
       if (String.length t <=? String.length p)%nat
       then [(t, drop (String.length t) p, c)]
       else [])
    l.

(** ** Parentheses *)




(** ** The reads of lines 71-75 and 130, one by one *)

(** [v.k] as JavaScript evaluates it: reading a member of null or
    undefined throws a TypeError. *)
Definition read (v : value) (k : string) : result value :=
  if nullish v then Throw TypeError else Ok (member v k).

(** [v?.k]: undefined for a nullish [v], without a read. *)
Definition opt_read (v : value) (k : string) : result value :=
  if nullish v then Ok VUndefined else read v k.

(** [error.response?.data?.field], read by read. *)
Definition read_response_data (error : value) (field : string)
  : result value :=
  response <- read error "response" ;;
  data <- opt_read response "data" ;;
  opt_read data field.

(** [error.response.data.field], the same chain without [?.]. *)
Definition read_response_data_unguarded (error : value) (field : string)
  : result value :=
  response <- read error "response" ;;
  data <- read response "data" ;;
  read data field.

(** [a && b] and [a || b] with the right operand evaluated only when the
    left one does not decide. *)
Definition and_then (a : value) (b : result value) : result value :=
  if truthy a then b else Ok a.

Definition or_else (a : value) (b : result value) : result value :=
  if truthy a then Ok a else b.

(** Line 71, read by read. *)
Definition eval_errorKw (error : value) : result value :=
  kw <- and_then error (read_response_data error "keywords") ;;
  or_else kw (Ok (VArr [])).

(** Lines 72-75, read by read. *)
Definition eval_errorMsg (config : Config) (error : value) : result value :=
  first <-
    (output <- and_then error (read_response_data error "output") ;;
     or_else output (and_then error (read error "message"))) ;;
  or_else first (Ok (VStr (general (messages config)))).

(** Lines 125-130, read by read: the status is computed only inside
    [error && (...)]. *)
Definition eval_alertStatus (error : value) : result (option value) :=
  if truthy error then
    alert <- read_response_data error "alert" ;;
    status <- or_else alert (Ok (VStr "error")) ;;
    Ok (Some status)
  else Ok None.

(** A response with an empty body. *)
Definition empty_body : FetchState :=
  {| data := VStr ""; loading := false; error := VNull |}.

(* ================================================================== *)
(** * Properties *)

(** ** The rendered tree *)

Lemma Result_inv config p st tree :
  Result config p st = Ok tree ->
  exists v, cleanOutput (data st) = Ok v /\ tree = view config p st v.
Proof.
  unfold Result, bind.
  destruct (cleanOutput (data st)) as [v | e |]; try discriminate.
  intros [= <-]. now exists v.
Qed.

Lemma Result_returns config p st :
  (exists tree, Result config p st = Ok tree) <->
  (truthy (data st) = true ->
   exists output, member (data st) "output" = VStr output).
Proof.
  unfold Result, cleanOutput, bind. split.
  - intros [tree H] Ht. rewrite Ht in H.
    destruct (member (data st) "output"); try discriminate. eauto.
  - intros H. destruct (truthy (data st)); [| eauto].
    destruct (H eq_refl) as [output ->]. eauto.
Qed.

Lemma find_view_Box config p st v :
  find "Box" (view config p st v) =
  if truthy (data st) then [Elem "Box" [] [Expr v]] else [].
Proof.
  unfold view, when.
  destruct (truthy (data st)), (truthy (error st)); reflexivity.
Qed.

Lemma find_view_Alert config p st v :
  find "Alert" (view config p st v) =
  if truthy (error st)
  then [Elem "Alert" [("status", alertStatus (error st))]
          [Elem "FormattedError"
             [("keywords", errorKw (error st));
              ("message", errorMsg config (error st))] []]]
  else [].
Proof.
  unfold view, when.
  destruct (truthy (data st)), (truthy (error st)); reflexivity.
Qed.

Lemma find_view_FormattedError config p st v :
  find "FormattedError" (view config p st v) =
  if truthy (error st)
  then [Elem "FormattedError"
          [("keywords", errorKw (error st));
           ("message", errorMsg config (error st))] []]
  else [].
Proof.
  unfold view, when.
  destruct (truthy (data st)), (truthy (error st)); reflexivity.
Qed.

Lemma find_view_CopyButton config p st v :
  find "CopyButton" (view config p st v) =
  [Elem "CopyButton" [("copyValue", v); ("variant", VStr "ghost")] []].
Proof.
  unfold view, when.
  destruct (truthy (data st)), (truthy (error st)); reflexivity.
Qed.

Lemma find_view_RequeryButton config p st v :
  find "RequeryButton" (view config p st v) =
  [Elem "RequeryButton" [("requery", refetch); ("variant", VStr "ghost")] []].
Proof.
  unfold view, when.
  destruct (truthy (data st)), (truthy (error st)); reflexivity.
Qed.

Lemma find_view_ResultHeader config p st v :
  find "ResultHeader" (view config p st v) =
  [Elem "ResultHeader"
     [("title", VStr (display_name (device p)));
      ("loading", VBool (loading st));
      ("error", error st)] []].
Proof.
  unfold view, when.
  destruct (truthy (data st)), (truthy (error st)); reflexivity.
Qed.

(** ** Which blocks are rendered (C4) *)

(** A successful query followed by a retry that fails leaves the hook with
    both [data] and [error]. *)
Lemma stale_data_and_error_reachable :
  exists final,
    steps sample_config sample_props
      (Hook.mount (requestConfig sample_props))
      [Settle (Hook.Succeeded (VObj [("output", VStr "ok")]));
       Retry;
       Settle (Hook.Failed Hook.OtherFailure
                 (VObj [("message", VStr "Network Error")]))] = Ok final /\
    Hook.state final = stale_data_and_error.
Proof. eexists. split; reflexivity. Qed.

(** C4, as stated, fails: with both [data] and [error] present the text
    block and the alert are rendered together. *)
Lemma box_and_alert_together :
  ~ (forall config p st tree,
       Result config p st = Ok tree ->
       renders "Box" tree && renders "Alert" tree = false).
Proof.
  intros H.
  specialize (H sample_config sample_props stale_data_and_error _ eq_refl).
  discriminate H.
Qed.

(** C4, amended: whenever the component renders, the text block is there
    exactly when [data] is truthy and the alert exactly when [error] is
    truthy, each independently of the other and of [loading]; the header,
    which is handed the loading flag, and both action buttons are there in
    every state. *)
Theorem render_branches config p st tree :
  Result config p st = Ok tree ->
  renders "Box" tree = truthy (data st) /\
  renders "Alert" tree = truthy (error st) /\
  map (prop "loading") (find "ResultHeader" tree) = [Some (VBool (loading st))] /\
  renders "ResultHeader" tree = true /\
  renders "CopyButton" tree = true /\
  renders "RequeryButton" tree = true.
Proof.
  intros H. apply Result_inv in H as (v & _ & ->).
  unfold renders.
  rewrite find_view_Box, find_view_Alert, find_view_ResultHeader,
    find_view_CopyButton, find_view_RequeryButton.
  destruct (truthy (data st)), (truthy (error st)); repeat split.
Qed.

Lemma render_branches_witness :
  let tree :=
    view sample_config sample_props stale_data_and_error (VStr "ok") in
  renders "Box" tree = true /\
  renders "Alert" tree = true /\
  map (prop "loading") (find "ResultHeader" tree) = [Some (VBool false)] /\
  renders "ResultHeader" tree = true /\
  renders "CopyButton" tree = true /\
  renders "RequeryButton" tree = true.
Proof.
  exact (render_branches sample_config sample_props stale_data_and_error _
           eq_refl).
Defined.

(** ** The error message and the alert status (C3, C7) *)

(** C3, as stated, fails: an error without a structured payload that
    carries a [message] shows that message, not the configured one. *)
Lemma error_message_shown_before_general :
  ~ (forall config p st tree,
       Result config p st = Ok tree ->
       truthy (error st) = true ->
       truthy (response_data (error st) "output") = false ->
       map (prop "message") (find "FormattedError" tree) =
       [Some (VStr (general (messages config)))]).
Proof.
  intros H.
  specialize (H sample_config sample_props network_error _
                eq_refl eq_refl eq_refl).
  discriminate H.
Qed.

(** C3, amended: for an error without a structured [output], the alert
    shows [error.message] when there is one, and the configured general
    message only when that is missing too. *)
Theorem message_without_payload config p st tree :
  Result config p st = Ok tree ->
  truthy (error st) = true ->
  truthy (response_data (error st) "output") = false ->
  map (prop "message") (find "FormattedError" tree) =
  [Some (if truthy (member (error st) "message")
         then member (error st) "message"
         else VStr (general (messages config)))].
Proof.
  intros H He Hout. apply Result_inv in H as (v & _ & ->).
  rewrite find_view_FormattedError, He. cbn [map].
  unfold prop, props_of, prop_in. cbn.
  unfold errorMsg, or_, and_. rewrite He, Hout.
  now destruct (truthy (member (error st) "message")).
Qed.

Lemma message_without_payload_witness :
  map (prop "message")
      (find "FormattedError"
         (view sample_config sample_props network_error VUndefined)) =
  [Some (VStr "Network Error")].
Proof.
  exact (message_without_payload sample_config sample_props network_error _
           eq_refl eq_refl eq_refl).
Defined.

(** C7: the alert's status is [error.response?.data?.alert] when the
    response carries one (a truthy value, as [||] reads it) and ["error"]
    otherwise. *)
Theorem alert_status_from_response config p st tree :
  Result config p st = Ok tree ->
  truthy (error st) = true ->
  map (prop "status") (find "Alert" tree) =
  [Some (if truthy (response_data (error st) "alert")
         then response_data (error st) "alert"
         else VStr "error")].
Proof.
  intros H He. apply Result_inv in H as (v & _ & ->).
  rewrite find_view_Alert, He. reflexivity.
Qed.

Lemma alert_status_from_response_witness :
  map (prop "status")
      (find "Alert" (view sample_config sample_props rejected_query VUndefined)) =
  [Some (VStr "warning")] /\
  map (prop "status")
      (find "Alert" (view sample_config sample_props network_error VUndefined)) =
  [Some (VStr "error")].
Proof.
  split.
  - exact (alert_status_from_response sample_config sample_props
             rejected_query _ eq_refl eq_refl).
  - exact (alert_status_from_response sample_config sample_props
             network_error _ eq_refl eq_refl).
Defined.

(** ** The action buttons (C6) *)

(** C6, as stated, fails: while the request is loading, neither action
    button is given a disabled flag. *)
Lemma buttons_not_disabled_while_loading :
  ~ (forall config p st tree,
       loading st = true ->
       Result config p st = Ok tree ->
       forall button,
         In button (find "CopyButton" tree ++ find "RequeryButton" tree)%list ->
         disabled button = true).
Proof.
  intros H.
  specialize (H sample_config sample_props first_load _ eq_refl eq_refl
                _ (or_introl eq_refl)).
  discriminate H.
Qed.

(** C6, amended: the loading flag disables the accordion item, and only
    it: the item's [isDisabled] is [loading], while the copy and retry
    buttons get no [isDisabled] and are rendered with the same props
    whether the request is loading or has settled. *)
Theorem loading_disables_item config p st tree :
  Result config p st = Ok tree ->
  prop "isDisabled" tree = Some (VBool (loading st)) /\
  disabled tree = loading st /\
  (forall button,
     In button (find "CopyButton" tree ++ find "RequeryButton" tree)%list ->
     prop "isDisabled" button = None /\ disabled button = false) /\
  (forall flag, exists tree',
     Result config p (set_loading flag st) = Ok tree' /\
     find "CopyButton" tree' = find "CopyButton" tree /\
     find "RequeryButton" tree' = find "RequeryButton" tree).
Proof.
  intros H. pose proof H as H0.
  apply Result_inv in H as (v & Hv & ->).
  split; [reflexivity |]. split; [reflexivity |]. split.
  - intros button Hin.
    rewrite find_view_CopyButton, find_view_RequeryButton in Hin.
    destruct Hin as [<- | [<- | []]]; split; reflexivity.
  - intros flag. exists (view config p (set_loading flag st) v).
    unfold Result. cbn [data set_loading]. rewrite Hv. cbn [bind].
    now rewrite !find_view_CopyButton, !find_view_RequeryButton.
Qed.

Lemma loading_disables_item_witness :
  disabled (view sample_config sample_props first_load VUndefined) = true /\
  disabled (view sample_config sample_props answered
              (VStr ("line 1" ++ nl ++ "line 2"))) = false.
Proof.
  split.
  - exact (proj1 (proj2 (loading_disables_item sample_config sample_props
                           first_load _ eq_refl))).
  - exact (proj1 (proj2 (loading_disables_item sample_config sample_props
                           answered _ eq_refl))).
Defined.

(** ** Requests (C5, C8) *)

Lemma retry_issues config p inst tree :
  Result config p (Hook.state inst) = Ok tree ->
  retry config p inst = Ok (Hook.call_refetch (requestConfig p) inst).
Proof.
  intros H. unfold retry. rewrite H. cbn [bind].
  apply Result_inv in H as (v & _ & ->).
  now rewrite find_view_RequeryButton.
Qed.

Lemma retry_sent config p inst next :
  retry config p inst = Ok next ->
  Hook.sent next = (Hook.sent inst ++ [requestConfig p])%list.
Proof.
  unfold retry, bind.
  destruct (Result config p (Hook.state inst)) as [tree | e |] eqn:H;
    try discriminate.
  apply Result_inv in H as (v & _ & ->).
  rewrite find_view_RequeryButton. now intros [= <-].
Qed.

Lemma step_sent config p inst ev next :
  step config p inst ev = Ok next ->
  Hook.sent next =
  (Hook.sent inst ++ if is_retry ev then [requestConfig p] else [])%list.
Proof.
  destruct ev as [o |]; cbn.
  - intros [= <-]. destruct o; cbn; now rewrite app_nil_r.
  - apply retry_sent.
Qed.

Lemma steps_sent config p evs : forall inst final,
  steps config p inst evs = Ok final ->
  Hook.sent final =
  (Hook.sent inst ++
   repeat (requestConfig p) (List.length (filter is_retry evs)))%list.
Proof.
  induction evs as [| ev rest IH]; intros inst final; cbn.
  - intros [= <-]. now rewrite app_nil_r.
  - destruct (step config p inst ev) as [next | e |] eqn:Hstep;
      cbn; try discriminate.
    intros Hrest. rewrite (IH _ _ Hrest), (step_sent _ _ _ _ _ Hstep).
    destruct (is_retry ev); cbn; now rewrite <- app_assoc.
Qed.

(** C5: a click on the retry button of a rendered panel issues one more
    request at once, whatever the state of the hook (loading or settled,
    after any number of earlier retries), and that request is the request
    issued on mount: same url, method, body and timeout.  Along any run of
    the panel every request issued is that same request, one per mount or
    retry. *)
Theorem retry_reissues_request config p inst tree :
  Result config p (Hook.state inst) = Ok tree ->
  (exists next,
     retry config p inst = Ok next /\
     Hook.sent next = (Hook.sent inst ++ [requestConfig p])%list /\
     Hook.sent (Hook.mount (requestConfig p)) = [requestConfig p]) /\
  (forall evs final,
     steps config p (Hook.mount (requestConfig p)) evs = Ok final ->
     Hook.sent final =
     repeat (requestConfig p) (1 + List.length (filter is_retry evs))).
Proof.
  intros H. split.
  - exists (Hook.call_refetch (requestConfig p) inst).
    split; [exact (retry_issues _ _ _ _ H) |]. split; reflexivity.
  - intros evs final Hrun. now rewrite (steps_sent _ _ _ _ _ Hrun).
Qed.

Lemma retry_reissues_request_witness :
  (exists next,
     retry sample_config sample_props (Hook.mount (requestConfig sample_props))
       = Ok next /\
     Hook.sent next =
       [requestConfig sample_props; requestConfig sample_props] /\
     Hook.sent (Hook.mount (requestConfig sample_props)) =
       [requestConfig sample_props]) /\
  (forall evs final,
     steps sample_config sample_props
       (Hook.mount (requestConfig sample_props)) evs = Ok final ->
     Hook.sent final =
     repeat (requestConfig sample_props)
       (1 + List.length (filter is_retry evs))).
Proof.
  exact (retry_reissues_request sample_config sample_props
           (Hook.mount (requestConfig sample_props)) _ eq_refl).
Defined.

(** C8: mounting the panel issues exactly one request, a POST to
    [/api/query] whose body holds the four query props and whose timeout is
    the [timeout] prop; a request that times out settles like any other
    failed one, and its error is rendered as the alert with the message and
    keywords computed from it. *)
Theorem mount_posts_query config p :
  Hook.sent (Hook.mount (requestConfig p)) =
    [{| Axios.url := "/api/query";
        Axios.method := "post";
        Axios.data :=
          VObj [("query_location", queryLocation p);
                ("query_type", queryType p);
                ("query_vrf", queryVrf p);
                ("query_target", queryTarget p)];
        Axios.timeout := timeout p |}] /\
  (forall err why inst,
     Hook.settle (Hook.Failed Hook.TimedOut err) inst =
     Hook.settle (Hook.Failed why err) inst) /\
  (forall err,
     truthy err = true ->
     exists tree,
       Result config p
         (Hook.state
            (Hook.settle (Hook.Failed Hook.TimedOut err)
               (Hook.mount (requestConfig p)))) = Ok tree /\
       renders "Box" tree = false /\
       find "Alert" tree =
       [Elem "Alert" [("status", alertStatus err)]
          [Elem "FormattedError"
             [("keywords", errorKw err);
              ("message", errorMsg config err)] []]]).
Proof.
  split; [reflexivity |]. split; [reflexivity |].
  intros err He. eexists. split; [reflexivity |].
  unfold renders. rewrite find_view_Box, find_view_Alert. cbn.
  rewrite He. now split.
Qed.

Lemma mount_posts_query_witness :
  exists tree,
    Result sample_config sample_props
      (Hook.state
         (Hook.settle
            (Hook.Failed Hook.TimedOut
               (VObj [("message", VStr "timeout of 5000ms exceeded")]))
            (Hook.mount (requestConfig sample_props)))) = Ok tree /\
    renders "Box" tree = false /\
    find "Alert" tree =
    [Elem "Alert" [("status", VStr "error")]
       [Elem "FormattedError"
          [("keywords", VArr []);
           ("message", VStr "timeout of 5000ms exceeded")] []]].
Proof.
  exact (proj2 (proj2 (mount_posts_query sample_config sample_props))
           (VObj [("message", VStr "timeout of 5000ms exceeded")]) eq_refl).
Defined.

(** ** Output normalization (C1) *)

Lemma match_at_blank_line_nil : match_at blank_line "" = None.
Proof. reflexivity. Qed.

Lemma match_at_blank_line_one c :
  match_at blank_line (String c "") = None.
Proof.
  unfold match_at. cbn. unfold char_eq.
  destruct (Ascii.eqb c _); reflexivity.
Qed.

Lemma match_at_blank_line_two c d s :
  match_at blank_line (String c (String d s)) =
  if Ascii.eqb c LF && Ascii.eqb d LF
  then Some ((String c "" ++ String d "" ++ "")%string, [])
  else None.
Proof.
  unfold match_at, LF. cbn. unfold char_eq.
  destruct (Ascii.eqb c _); cbn; [| reflexivity].
  destruct (Ascii.eqb d _); reflexivity.
Qed.

Lemma replace_blank_line_pairs s :
  replace_loop blank_line "" s 0 = delete_pairs s /\
  forall c, replace_loop blank_line "" (String c s) 0 = delete_pairs (String c s).
Proof.
  induction s as [| d s [IH1 IH2]].
  - split; [reflexivity |]. intros c.
    cbn [replace_loop]. rewrite match_at_blank_line_one. reflexivity.
  - split; [apply IH2 |]. intros c.
    cbn [replace_loop delete_pairs]. rewrite match_at_blank_line_two.
    destruct (Ascii.eqb c LF && Ascii.eqb d LF).
    + cbn. apply IH1.
    + f_equal. apply IH2.
Qed.

Lemma replace_all_blank_line s :
  replace_all blank_line "" s = delete_pairs s.
Proof. apply replace_blank_line_pairs. Qed.

Lemma delete_pairs_no_blank_line s :
  has_blank_line (delete_pairs s) = false /\
  forall c, has_blank_line (delete_pairs (String c s)) = false.
Proof.
  induction s as [| d s [IH1 IH2]].
  - split; [reflexivity |]. intros c. reflexivity.
  - split; [apply IH2 |]. intros c.
    cbn [delete_pairs].
    destruct (Ascii.eqb c LF && Ascii.eqb d LF) eqn:Hcd; [apply IH1 |].
    specialize (IH2 d). cbn [delete_pairs] in IH2 |- *.
    destruct s as [| e s].
    + cbn [has_blank_line]. now rewrite Hcd.
    + destruct (Ascii.eqb d LF && Ascii.eqb e LF) eqn:Hde.
      * (* the pair [d e] goes: what follows [c] starts the rest *)
        apply andb_true_iff in Hde as [Hd He]. rewrite Hd, andb_true_r in Hcd.
        destruct (delete_pairs s) as [| x r] eqn:Hr; [reflexivity |].
        cbn [has_blank_line]. rewrite Hcd. cbn [andb orb]. exact IH2.
      * cbn [has_blank_line]. rewrite Hcd. cbn [orb]. exact IH2.
Qed.

Lemma delete_pairs_without_blank_line s :
  (has_blank_line s = false -> delete_pairs s = s) /\
  forall c, has_blank_line (String c s) = false ->
            delete_pairs (String c s) = String c s.
Proof.
  induction s as [| d s [IH1 IH2]].
  - split; [reflexivity |]. reflexivity.
  - split; [apply IH2 |]. intros c H.
    cbn [has_blank_line] in H. apply orb_false_iff in H as [Hcd Hrest].
    cbn [delete_pairs]. rewrite Hcd. f_equal. now apply IH2.
Qed.

(** C1, as stated, fails: the result is not ["a\nb\nc"]. *)
Lemma normalize_example_joins_lines :
  normalize "a\nb\n\nc" <> "a" ++ nl ++ "b" ++ nl ++ "c".
Proof. vm_compute. discriminate. Qed.

(** C1, amended: the example yields ["a\nbc"].  Each pair of adjacent
    line feeds is deleted outright, so no blank line is left in any
    normalized output and an output without blank lines keeps its single
    line breaks, while the lines on either side of a blank line end up
    joined. *)
Theorem normalize_deletes_newline_pairs :
  normalize "a\nb\n\nc" = "a" ++ nl ++ "bc" /\
  (forall output,
     normalize output = delete_pairs (join nl (split "\n" output)) /\
     has_blank_line (normalize output) = false) /\
  (forall output,
     has_blank_line (join nl (split "\n" output)) = false ->
     normalize output = join nl (split "\n" output)).
Proof.
  split; [reflexivity |]. unfold normalize. split.
  - intros output. rewrite replace_all_blank_line.
    split; [reflexivity | apply delete_pairs_no_blank_line].
  - intros output H. rewrite replace_all_blank_line.
    now apply delete_pairs_without_blank_line.
Qed.

Lemma normalize_deletes_newline_pairs_witness :
  normalize "a\nb" = join nl (split "\n" "a\nb").
Proof.
  exact (proj2 (proj2 normalize_deletes_newline_pairs) "a\nb" eq_refl).
Defined.

(** ** Strings *)

Lemma append_empty_r (s : string) : (s ++ "")%string = s.
Proof. induction s as [| c s IH]; cbn; [reflexivity | now rewrite IH]. Qed.

Lemma append_assoc (a b c : string) :
  ((a ++ b) ++ c)%string = (a ++ (b ++ c))%string.
Proof. induction a as [| x a IH]; cbn; [reflexivity | now rewrite IH]. Qed.

Lemma drop_empty n : drop n "" = "".
Proof. now destruct n. Qed.

Lemma drop_append t rest : drop (String.length t) (t ++ rest) = rest.
Proof. induction t as [| c t IH]; cbn; [reflexivity | exact IH]. Qed.

Lemma take_append t rest : take (String.length t) (t ++ rest) = t.
Proof. induction t as [| c t IH]; cbn; [reflexivity | now rewrite IH]. Qed.

Lemma take_drop n s : (take n s ++ drop n s)%string = s.
Proof.
  revert s. induction n as [| n IH]; intros [| c s]; cbn; try reflexivity.
  now rewrite IH.
Qed.

Lemma length_append_le t rest : String.length t <= String.length (t ++ rest).
Proof. induction t as [| c t IH]; cbn; lia. Qed.

Lemma chars_append a b : chars (a ++ b) = (chars a ++ chars b)%list.
Proof.
  unfold chars. induction a as [| c a IH]; cbn; [reflexivity | now rewrite IH].
Qed.

Lemma concat_empty_cons (x : string) (l : list string) :
  String.concat "" (x :: l) = (x ++ String.concat "" l)%string.
Proof. destruct l; cbn; [now rewrite append_empty_r | reflexivity]. Qed.

(** ** The matcher *)

(** A match splits the input, and reports one capture per group. *)
Lemma run_sound ic r : forall s t rest caps,
  In (t, rest, caps) (run ic r s) ->
  s = (t ++ rest)%string /\ List.length caps = groups r.
Proof.
  induction r as [| c | | r1 IH1 r2 IH2 | r1 IH1 r2 IH2 | r1 IH1];
    intros s t rest caps; cbn [run groups].
  - intros [[= <- <- <-] | []]. now split.
  - destruct s as [| d s']; [intros [] |].
    destruct (char_eq ic d c); [| intros []].
    intros [[= <- <- <-] | []]. now split.
  - destruct s as [| d s']; [intros [] |].
    destruct (line_terminator d); [intros [] |].
    intros [[= <- <- <-] | []]. now split.
  - intros H. apply in_flat_map in H as ([[t1 s1] c1] & H1 & H).
    apply in_map_iff in H as ([[t2 s2] c2] & [= <- <- <-] & H2).
    apply IH1 in H1 as [-> L1]. apply IH2 in H2 as [-> L2].
    split; [now rewrite append_assoc | rewrite length_app; lia].
  - intros H. apply in_app_or in H as [H | H];
      apply in_map_iff in H as ([[t1 s1] c1] & [= <- <- <-] & H1).
    + apply IH1 in H1 as [-> L1]. split; [reflexivity |].
      unfold undefined_captures. rewrite length_app, repeat_length. lia.
    + apply IH2 in H1 as [-> L2]. split; [reflexivity |].
      unfold undefined_captures. rewrite length_app, repeat_length. lia.
  - intros H. apply in_map_iff in H as ([[t1 s1] c1] & [= <- <- <-] & H1).
    apply IH1 in H1 as [-> L1]. split; [reflexivity | cbn; lia].
Qed.

Lemma flat_map_singleton {A B : Type} (h : A -> B) (l : list A) :
  flat_map (fun a => [h a]) l = map h l.
Proof. induction l as [| a l IH]; cbn; [reflexivity | now rewrite IH]. Qed.

(** The pattern [(g)] as the parser builds it. *)
Lemma run_outer_group ic g s :
  run ic (Seq (Group g) Empty) s =
  map (fun m : matching =>
         let '(t, rest, c) := m in
         ((t ++ "")%string, rest, ((Some t :: c) ++ [])%list))
      (run ic g s).
Proof.
  cbn [run]. rewrite flat_map_concat_map, map_map, <- flat_map_concat_map.
  rewrite <- flat_map_singleton. apply flat_map_ext.
  intros [[t rest] c]. reflexivity.
Qed.

(** With no group inside [g], the one capture of [(g)] is the match. *)
Lemma match_at_outer_group re g s t caps :
  ast re = Seq (Group g) Empty ->
  groups g = 0 ->
  match_at re s = Some (t, caps) ->
  caps = [Some t] /\
  (exists rest, s = (t ++ rest)%string) /\
  exists rest, In (t, rest, []) (run (ignoreCase re) g s).
Proof.
  intros Hast Hg. unfold match_at. rewrite Hast, run_outer_group.
  destruct (run (ignoreCase re) g s) as [| [[t0 rest0] c0] l] eqn:Hrun;
    cbn [map]; [discriminate |].
  intros [= <- <-].
  destruct (run_sound (ignoreCase re) g s t0 rest0 c0) as [Hs Hc].
  { rewrite Hrun. now left. }
  rewrite Hg in Hc. destruct c0; [| discriminate].
  rewrite append_empty_r. split; [reflexivity |]. split.
  - now exists rest0.
  - exists rest0. now left.
Qed.

Lemma match_at_none re g s :
  ast re = Seq (Group g) Empty ->
  match_at re s = None ->
  run (ignoreCase re) g s = [].
Proof.
  intros Hast. unfold match_at. rewrite Hast, run_outer_group.
  destruct (run (ignoreCase re) g s) as [| [[t0 rest0] c0] l];
    [reflexivity | discriminate].
Qed.

(** ** The split loop *)

Section SplitPieces.

Variable re : regexp.
Variables P M : string -> Prop.
Variable I : string -> string -> Prop.

Hypothesis match_sound : forall s t caps,
  match_at re s = Some (t, caps) ->
  caps = [Some t] /\ (exists rest, s = (t ++ rest)%string) /\ M t.
Hypothesis I_start : forall s, I "" s.
Hypothesis I_miss : forall acc c s,
  I acc (String c s) -> match_at re (String c s) = None ->
  I (acc ++ String c "") s.
Hypothesis I_empty : forall c s caps,
  match_at re (String c s) = Some ("", caps) -> I (String c "") s.
Hypothesis I_done : forall acc s, I acc s -> P acc.

Let splitter (rest : string) : option (nat * list capture) :=
  match match_at re rest with
  | Some (t, caps) => Some (String.length t, caps)
  | None => None
  end.

Lemma split_loop_pieces : forall s skip acc,
  skip <= String.length s ->
  I acc (drop skip s) ->
  pieces P M (split_loop Some splitter s skip acc) /\
  joined (split_loop Some splitter s skip acc) = (acc ++ drop skip s)%string.
Proof.
  induction s as [| c s IH]; intros skip acc Hskip Hacc.
  - rewrite drop_empty in *. cbn. split; [| reflexivity].
    constructor. eauto.
  - destruct skip as [| k]; cbn [split_loop drop] in *.
    + destruct (match_at re (String c s)) as [[t caps] |] eqn:Hm.
      * assert (Hsp : splitter (String c s) = Some (String.length t, caps))
          by (unfold splitter; now rewrite Hm).
        rewrite Hsp. clear Hsp.
        destruct (match_sound _ _ _ Hm) as (-> & [rest Hs] & Ht).
        destruct t as [| c' t]; cbn [String.length].
        -- assert (Hnext : I (String c "") (drop 0 s)) by (cbn; eauto).
           destruct (IH 0 (String c "") (Nat.le_0_l _) Hnext) as [Hp Hj].
           destruct acc as [| a acc].
           ++ split; [exact Hp | exact Hj].
           ++ split.
              ** cbn [app]. constructor; eauto.
              ** cbn [app joined]. rewrite Hj. reflexivity.
        -- cbn in Hs. injection Hs as <- ->.
           destruct (IH (String.length t) "" (length_append_le t rest)
                        (I_start _)) as [Hp Hj].
           split.
           ++ cbn [app]. constructor; eauto.
           ++ cbn [app joined]. rewrite Hj, drop_append. reflexivity.
      * assert (Hsp : splitter (String c s) = None)
          by (unfold splitter; now rewrite Hm).
        rewrite Hsp. clear Hsp.
        assert (Hnext : I (acc ++ String c "") (drop 0 s)) by (cbn; eauto).
        destruct (IH 0 _ (Nat.le_0_l _) Hnext) as [Hp Hj].
        split; [exact Hp |]. rewrite Hj. cbn [drop].
        now rewrite append_assoc.
    + apply IH; [cbn [String.length] in Hskip; lia | exact Hacc].
Qed.

Lemma split_regexp_pieces s :
  s <> "" ->
  pieces P M (split_regexp re s) /\ joined (split_regexp re s) = s.
Proof.
  intros Hs. unfold split_regexp, split_with.
  destruct s as [| c s]; [contradiction |].
  apply (split_loop_pieces (String c s) 0 ""); [lia | apply I_start].
Qed.

End SplitPieces.

(** ** The loop of replaceString *)

Lemma apply_odd_pieces (P M : string -> Prop) l :
  pieces P M l ->
  exists fs,
    apply_odd Plain (fun matched => Strong matched matched) l = Ok fs /\
    alternating fs = true /\
    text_content fs = joined l /\
    (forall p, In (Plain p) fs -> P p) /\
    (forall k m, In (Strong k m) fs -> k = m /\ M m).
Proof.
  induction 1 as [p Hp | p m rest Hp Hm _ (fs & Hfs & Halt & Htext & HP & HM)].
  - exists [Plain p].
    split; [reflexivity |]. split; [reflexivity |]. split; [| split].
    + cbn. now rewrite append_empty_r.
    + now intros q [[= <-] | []].
    + now intros k m [? | []].
  - exists (Plain p :: Strong m m :: fs).
    cbn [apply_odd]. rewrite Hfs.
    split; [reflexivity |]. split; [exact Halt |]. split; [| split].
    + unfold text_content in *. cbn [map joined fragment_text].
      now rewrite !concat_empty_cons, Htext.
    + intros q [[= <-] | [[=] | Hin]]; eauto.
    + intros k m' [[=] | [[= <- <-] | Hin]]; [now split |].
      now apply HM in Hin.
Qed.

(** ** Parsing the keyword pattern *)

Lemma flat_pattern_cons c s :
  flat_pattern (String c s) = flat_char c && flat_pattern s.
Proof. reflexivity. Qed.

Lemma flat_pattern_append a b :
  flat_pattern (a ++ b) = flat_pattern a && flat_pattern b.
Proof. unfold flat_pattern. now rewrite chars_append, forallb_app. Qed.

Lemma flat_pattern_join kws :
  forallb flat_pattern kws = true -> flat_pattern (join "|" kws) = true.
Proof.
  unfold join. induction kws as [| k ks IH]; [reflexivity |].
  cbn [forallb String.concat]. intros H.
  apply andb_true_iff in H as [Hk Hks].
  destruct ks as [| k' ks]; [exact Hk |].
  rewrite !flat_pattern_append, Hk, (IH Hks). reflexivity.
Qed.

Lemma parse_loop_flat s : forall rest f stack,
  flat_pattern s = true ->
  parse_loop (s ++ rest) f stack = parse_loop rest (scan s f) stack.
Proof.
  induction s as [| c s IH]; intros rest f stack H; [reflexivity |].
  rewrite flat_pattern_cons in H. apply andb_true_iff in H as [Hc Hs].
  unfold flat_char in Hc.
  apply andb_true_iff in Hc as [Hc Hclose].
  apply andb_true_iff in Hc as [Hout Hopen].
  apply negb_true_iff in Hout, Hopen, Hclose.
  cbn [append parse_loop scan]. unfold scan_char.
  rewrite Hopen, Hclose, Hout.
  destruct (Ascii.eqb c "|"); [now apply IH |].
  destruct (Ascii.eqb c "."); now apply IH.
Qed.

Lemma scan_append a : forall b f, scan (a ++ b) f = scan b (scan a f).
Proof. induction a as [| c a IH]; intros b f; cbn; [reflexivity | apply IH]. Qed.

(** The keyword pattern of keywords without parentheses is one group. *)
Lemma RegExp_patternStr kws :
  forallb flat_pattern kws = true ->
  RegExp (patternStr kws) "gi" =
  Ok (mkRegExp
        (Seq (Group (close_frame (scan (join "|" kws) empty_frame))) Empty)
        true true).
Proof.
  intros H. apply flat_pattern_join in H.
  unfold RegExp, parse, patternStr. cbn [append parse_loop Ascii.eqb].
  now rewrite (parse_loop_flat _ _ _ _ H).
Qed.

Lemma groups_alternative ts :
  Forall groupless ts -> groups (alternative ts) = 0.
Proof.
  unfold alternative.
  induction 1 as [| r ts Hr _ IH]; cbn; [reflexivity |].
  unfold groupless in Hr. now rewrite Hr, IH.
Qed.

Lemma groups_disjunction rs : forall r,
  groupless r -> Forall groupless rs -> groups (disjunction r rs) = 0.
Proof.
  induction rs as [| r' rs IH]; intros r Hr Hrs; cbn; [exact Hr |].
  inversion Hrs; subst. unfold groupless in Hr. now rewrite Hr, IH.
Qed.

Lemma groups_close_frame f :
  Forall groupless (closed f) -> Forall groupless (terms f) ->
  groups (close_frame f) = 0.
Proof.
  intros Hc Ht. unfold close_frame.
  assert (H : Forall groupless
                (rev (alternative (rev (terms f)) :: closed f))).
  { apply Forall_rev. constructor; [| exact Hc].
    apply groups_alternative. now apply Forall_rev. }
  destruct (rev (alternative (rev (terms f)) :: closed f)); [reflexivity |].
  inversion H; subst. now apply groups_disjunction.
Qed.

Lemma scan_groupless s : forall f,
  Forall groupless (closed f) -> Forall groupless (terms f) ->
  Forall groupless (closed (scan s f)) /\ Forall groupless (terms (scan s f)).
Proof.
  induction s as [| c s IH]; intros f Hc Ht; cbn [scan]; [now split |].
  assert (Hnext : Forall groupless (closed (scan_char c f)) /\
                  Forall groupless (terms (scan_char c f))).
  { unfold scan_char.
    destruct (Ascii.eqb c "|"); [| destruct (Ascii.eqb c ".")]; cbn.
    - split; constructor; [| exact Hc].
      apply groups_alternative. now apply Forall_rev.
    - split; [exact Hc | now constructor].
    - split; [exact Hc | now constructor]. }
  now apply IH.
Qed.

Lemma groups_keyword_pattern kws :
  groups (close_frame (scan (join "|" kws) empty_frame)) = 0.
Proof.
  destruct (scan_groupless (join "|" kws) empty_frame) as [Hc Ht];
    try constructor.
  now apply groups_close_frame.
Qed.

(** ** FormattedError on a pattern with one group *)

Section OneGroup.

Variables (kws : list string) (re : regexp) (g : regex).
Variables P M : string -> Prop.
Variable I : string -> string -> Prop.

Hypothesis built : RegExp (patternStr kws) "gi" = Ok re.
Hypothesis one_group : ast re = Seq (Group g) Empty.
Hypothesis no_inner_group : groups g = 0.
Hypothesis M_match : forall s t rest,
  In (t, rest, []) (run (ignoreCase re) g s) -> M t.
Hypothesis P_empty : P "".
Hypothesis I_start : forall s, I "" s.
Hypothesis I_miss : forall acc c s,
  I acc (String c s) -> match_at re (String c s) = None ->
  I (acc ++ String c "") s.
Hypothesis I_empty : forall c s caps,
  match_at re (String c s) = Some ("", caps) -> I (String c "") s.
Hypothesis I_done : forall acc s, I acc s -> P acc.

Lemma FormattedError_fragments msg :
  exists fs,
    FormattedError kws msg = Ok fs /\
    alternating fs = true /\
    text_content fs = msg /\
    (forall p, In (Plain p) fs -> P p) /\
    (forall k m, In (Strong k m) fs -> k = m /\ M m).
Proof.
  unfold FormattedError. rewrite built. cbn [bind].
  unfold strReplace, replaceString.
  destruct (String.eqb_spec msg "") as [-> | Hmsg].
  - exists [Plain ""].
    split; [reflexivity |]. split; [reflexivity |]. split; [reflexivity |].
    split.
    + intros p [[= <-] | []]. exact P_empty.
    + now intros k m [? | []].
  - assert (Hsound : forall s t caps,
              match_at re s = Some (t, caps) ->
              caps = [Some t] /\ (exists rest, s = (t ++ rest)%string) /\ M t).
    { intros s t caps Hm.
      destruct (match_at_outer_group re g s t caps one_group no_inner_group Hm)
        as (Hcaps & Hrest & rest & Hin).
      eauto. }
    destruct (split_regexp_pieces re P M I Hsound I_start I_miss I_empty
                I_done msg Hmsg) as [Hp Hj].
    destruct (apply_odd_pieces P M _ Hp) as (fs & Hfs & Halt & Htext & HP & HM).
    exists fs. rewrite Htext, Hj.
    split; [exact Hfs |]. split; [exact Halt |]. split; [reflexivity |].
    split; [exact HP | exact HM].
Qed.

End OneGroup.

(** ** Text content (C9) *)

(** C9, as stated, fails: a keyword with a group of its own makes [split]
    return the match twice, and both copies are rendered. *)
Lemma inner_group_duplicates_text :
  ~ (forall kws msg fs,
       FormattedError kws msg = Ok fs -> text_content fs = msg).
Proof.
  intros H. specialize (H ["(b)"] "abc" _ eq_refl). discriminate H.
Qed.

(** C9, amended: for keywords that use none of the pattern operators
    [\ ^ $ * + ? ( ) [ ] { }], so that the only group is the one wrapped
    around the alternation, [FormattedError] renders and the texts of its
    fragments, in order, make up the message; this covers the empty keyword
    list, whose pattern is ["()"]. *)
Theorem FormattedError_preserves_text :
  (forall kws msg,
     forallb flat_pattern kws = true ->
     exists fs,
       FormattedError kws msg = Ok fs /\
       alternating fs = true /\
       text_content fs = msg) /\
  patternStr [] = "()" /\
  (forall msg,
     exists fs, FormattedError [] msg = Ok fs /\ text_content fs = msg).
Proof.
  assert (H : forall kws msg,
             forallb flat_pattern kws = true ->
             exists fs,
               FormattedError kws msg = Ok fs /\
               alternating fs = true /\
               text_content fs = msg).
  { intros kws msg Hk.
    destruct (FormattedError_fragments kws _ _
                (fun _ => True) (fun _ => True) (fun _ _ => True)
                (RegExp_patternStr kws Hk) eq_refl
                (groups_keyword_pattern kws)
                (fun _ _ _ _ => Logic.I) Logic.I (fun _ => Logic.I)
                (fun _ _ _ _ _ => Logic.I) (fun _ _ _ _ => Logic.I)
                (fun _ _ _ => Logic.I) msg)
      as (fs & Hfs & Halt & Htext & _).
    now exists fs. }
  split; [exact H |]. split; [reflexivity |].
  intros msg. destruct (H [] msg eq_refl) as (fs & Hfs & _ & Htext).
  now exists fs.
Qed.

Lemma FormattedError_preserves_text_witness :
  exists fs,
    FormattedError ["192.0.2.1"; "not allowed"] "192.0.2.1 is not allowed" = Ok fs /\
    alternating fs = true /\
    text_content fs = "192.0.2.1 is not allowed".
Proof.
  exact (proj1 FormattedError_preserves_text
           ["192.0.2.1"; "not allowed"] "192.0.2.1 is not allowed" eq_refl).
Defined.

(** ** Keywords without syntax characters *)

Lemma plain_char c :
  syntax_char c = false ->
  flat_char c = true /\ Ascii.eqb c "|" = false /\ Ascii.eqb c "." = false.
Proof.
  destruct c as [[] [] [] [] [] [] [] []]; vm_compute; intros H;
    try discriminate H; repeat split.
Qed.

Lemma plain_keyword_cons c k :
  plain_keyword (String c k) = negb (syntax_char c) && plain_keyword k.
Proof. reflexivity. Qed.

Lemma plain_keyword_flat k : plain_keyword k = true -> flat_pattern k = true.
Proof.
  induction k as [| c k IH]; [reflexivity |].
  rewrite plain_keyword_cons, flat_pattern_cons. intros H.
  apply andb_true_iff in H as [Hc Hk]. apply negb_true_iff in Hc.
  destruct (plain_char c Hc) as (-> & _). now rewrite IH.
Qed.

Lemma plain_keywords_flat kws :
  forallb plain_keyword kws = true -> forallb flat_pattern kws = true.
Proof.
  induction kws as [| k ks IH]; [reflexivity |]. cbn [forallb]. intros H.
  apply andb_true_iff in H as [Hk Hks].
  now rewrite (plain_keyword_flat k Hk), IH.
Qed.

Lemma scan_plain k : forall f,
  plain_keyword k = true ->
  scan k f = mkFrame (closed f) (rev (map Char (chars k)) ++ terms f)%list.
Proof.
  induction k as [| c k IH]; intros f H.
  - now destruct f.
  - rewrite plain_keyword_cons in H.
    apply andb_true_iff in H as [Hc Hk]. apply negb_true_iff in Hc.
    destruct (plain_char c Hc) as (_ & Hbar & Hdot).
    cbn [scan]. unfold scan_char. rewrite Hbar, Hdot, (IH _ Hk).
    unfold chars. cbn [push_term closed terms list_ascii_of_string map rev].
    now rewrite <- app_assoc.
Qed.

Lemma close_frame_keywords ks : forall k f,
  forallb plain_keyword (k :: ks) = true ->
  terms f = [] ->
  close_frame (scan (join "|" (k :: ks)) f) =
  match (rev (closed f) ++ literal k :: map literal ks)%list with
  | [] => Empty
  | first :: others => disjunction first others
  end.
Proof.
  unfold join.
  induction ks as [| k' ks IH]; intros k f H Hf; cbn [forallb] in H;
    apply andb_true_iff in H as [Hk Hks].
  - cbn [String.concat map]. rewrite (scan_plain _ _ Hk), Hf, app_nil_r.
    unfold close_frame. cbn [terms closed rev].
    now rewrite rev_involutive.
  - change (String.concat "|" (k :: k' :: ks))
      with (k ++ String "|" (String.concat "|" (k' :: ks)))%string.
    rewrite scan_append, (scan_plain _ _ Hk), Hf, app_nil_r.
    cbn [scan]. unfold scan_char at 1. cbn [Ascii.eqb Bool.eqb].
    unfold next_alternative. cbn [terms closed].
    rewrite rev_involutive.
    fold (literal k).
    rewrite (IH k' (mkFrame (literal k :: closed f) []) Hks eq_refl).
    cbn [closed rev map].
    now rewrite <- app_assoc.
Qed.

(** The pattern built for plain keywords is the group of their
    alternation. *)
Lemma RegExp_plain_keywords k ks :
  forallb plain_keyword (k :: ks) = true ->
  RegExp (patternStr (k :: ks)) "gi" =
  Ok (mkRegExp (Seq (Group (any_of k ks)) Empty) true true).
Proof.
  intros H. rewrite (RegExp_patternStr _ (plain_keywords_flat _ H)).
  now rewrite (close_frame_keywords ks k empty_frame H eq_refl).
Qed.

(** ** Matching an alternation of literals *)

Lemma run_literal ic k : forall s,
  run ic (literal k) s =
  if prefix_match ic k s
  then [(take (String.length k) s, drop (String.length k) s, [])]
  else [].
Proof.
  unfold literal, chars, alternative.
  induction k as [| c k IH]; intros s; [reflexivity |].
  cbn [list_ascii_of_string map fold_right run prefix_match String.length].
  destruct s as [| d s]; [reflexivity |].
  destruct (char_eq ic d c); [| reflexivity].
  cbn [flat_map andb]. rewrite IH.
  destruct (prefix_match ic k s); reflexivity.
Qed.

Lemma run_any_of_sound ic ks : forall k s t rest caps,
  In (t, rest, caps) (run ic (any_of k ks) s) ->
  exists kw,
    In kw (k :: ks) /\ prefix_match ic kw s = true /\
    t = take (String.length kw) s.
Proof.
  unfold any_of.
  induction ks as [| k' ks IH]; intros k s t rest caps;
    cbn [map disjunction run].
  - rewrite run_literal. destruct (prefix_match ic k s) eqn:Hk; [| intros []].
    intros [[= <- <- <-] | []]. exists k. repeat split; [now left | exact Hk].
  - intros H. apply in_app_or in H as [H | H];
      apply in_map_iff in H as ([[t1 s1] c1] & [= <- <- <-] & H1).
    + rewrite run_literal in H1.
      destruct (prefix_match ic k s) eqn:Hk; [| destruct H1].
      destruct H1 as [[= <- <- <-] | []].
      exists k. repeat split; [now left | exact Hk].
    + apply IH in H1 as (kw & Hin & Hp & Ht).
      exists kw. repeat split; [now right | exact Hp | exact Ht].
Qed.

Lemma run_any_of_complete ic ks : forall k s kw,
  In kw (k :: ks) -> prefix_match ic kw s = true ->
  run ic (any_of k ks) s <> [].
Proof.
  unfold any_of.
  induction ks as [| k' ks IH]; intros k s kw Hin Hp;
    cbn [map disjunction run].
  - destruct Hin as [<- | []]. rewrite run_literal, Hp. discriminate.
  - intros H. apply app_eq_nil in H as [H1 H2].
    apply map_eq_nil in H1, H2.
    destruct Hin as [<- | Hin].
    + rewrite run_literal, Hp in H1. discriminate.
    + exact (IH k' s kw Hin Hp H2).
Qed.

Lemma prefix_match_take kw : forall s,
  prefix_match true kw s = true ->
  same_ignoring_case (take (String.length kw) s) kw = true.
Proof.
  induction kw as [| c kw IH]; intros [| d s]; cbn; try easy.
  intros H. apply andb_true_iff in H as [Hc Hk].
  now rewrite Hc, IH.
Qed.

Lemma prefix_match_take_empty ic kw s :
  prefix_match ic kw s = true ->
  take (String.length kw) s = "" -> kw = "".
Proof. destruct kw, s; cbn; easy. Qed.

Lemma prefix_match_append ic k : forall a s,
  prefix_match ic k a = true -> prefix_match ic k (a ++ s) = true.
Proof.
  induction k as [| c k IH]; intros [| d a] s; cbn; try easy.
  intros H. apply andb_true_iff in H as [Hc Hk].
  now rewrite Hc, IH.
Qed.

Lemma starts_in_snoc k acc : forall c s,
  starts_in k (acc ++ String c "") s =
  starts_in k acc (String c s) || prefix_match true k (String c s).
Proof.
  induction acc as [| a acc IH]; intros c s.
  - cbn [append starts_in]. now rewrite orb_false_r.
  - cbn [append starts_in]. rewrite IH, append_assoc. cbn [append].
    now rewrite orb_assoc.
Qed.

Lemma starts_in_mentions k acc s :
  k <> "" -> starts_in k acc s = false -> mentions k acc = false.
Proof.
  intros Hk. induction acc as [| a acc IH].
  - destruct k; [contradiction | reflexivity].
  - cbn [starts_in mentions]. intros H.
    apply orb_false_iff in H as [Hhere Hlater].
    rewrite (IH Hlater), orb_false_r.
    destruct (prefix_match true k (String a acc)) eqn:Hp; [| reflexivity].
    apply (prefix_match_append true k _ s) in Hp.
    cbn [append] in Hp, Hhere. congruence.
Qed.

Lemma groups_any_of k ks : groups (any_of k ks) = 0.
Proof.
  assert (Hlit : forall kw, groupless (literal kw)).
  { intros kw. apply groups_alternative, Forall_forall.
    intros r Hr. apply in_map_iff in Hr as (c & <- & _). reflexivity. }
  apply groups_disjunction; [apply Hlit |].
  apply Forall_forall. intros r Hr.
  apply in_map_iff in Hr as (kw & <- & _). apply Hlit.
Qed.

Lemma nonempty_keyword kws kw :
  forallb nonempty kws = true -> In kw kws -> kw <> "".
Proof.
  intros H Hin ->. rewrite forallb_forall in H.
  specialize (H "" Hin). discriminate H.
Qed.

(** ** Emphasised keywords (C2) *)

(** C2, as stated, fails: with a keyword that carries a group of its own,
    text that is no match of the pattern is emphasised. *)
Lemma inner_group_emphasises_other_text :
  ~ (forall kws msg re fs,
       kws <> [] ->
       RegExp (patternStr kws) "gi" = Ok re ->
       FormattedError kws msg = Ok fs ->
       forall key m,
         In (Strong key m) fs -> exists caps, match_at re m = Some (m, caps)).
Proof.
  intros H.
  assert (Hne : ["(a)"] <> []) by discriminate.
  destruct (H ["(a)"] "xay" _ _ Hne eq_refl eq_refl "y" "y") as [caps Hm].
  - cbn. tauto.
  - discriminate Hm.
Qed.

(* ================================================================== *)
(** * Further properties *)

(** ** The first stage of the normalization: split and join *)

Lemma prefix_escape s :
  prefix "\n" s =
  match s with
  | String c (String d _) => Ascii.eqb c "\" && Ascii.eqb d "n"
  | _ => false
  end.
Proof.
  destruct s as [| c [| d s]]; cbn [prefix]; try reflexivity.
  - destruct (ascii_dec "\" c); reflexivity.
  - destruct (ascii_dec "\" c) as [<- | Hc].
    + destruct (ascii_dec "n" d) as [<- | Hd]; [now destruct s |].
      symmetry. apply andb_false_iff. right. apply Ascii.eqb_neq. congruence.
    + symmetry. apply andb_false_iff. left. apply Ascii.eqb_neq. congruence.
Qed.

Lemma split_loop_nonempty {A : Type} (inj : string -> A) splitter s :
  forall skip acc, split_loop inj splitter s skip acc <> [].
Proof.
  induction s as [| c s IH]; intros skip acc; cbn [split_loop];
    [discriminate |].
  destruct skip; [| apply IH].
  destruct (splitter (String c s)) as [[[| k] caps] |]; try apply IH;
    try discriminate.
  destruct acc; [apply IH | discriminate].
Qed.

Lemma join_cons sep x l :
  l <> [] -> join sep (x :: l) = (x ++ sep ++ join sep l)%string.
Proof. destruct l; [contradiction | reflexivity]. Qed.

Lemma split_loop_scan {A : Type} (inj : string -> A) splitter c s acc :
  split_loop inj splitter (String c s) 0 acc =
  match splitter (String c s) with
  | None => split_loop inj splitter s 0 (acc ++ String c "")
  | Some (O, caps) =>
      match acc with
      | "" => split_loop inj splitter s 0 (String c "")
      | _ => (inj acc :: caps ++ split_loop inj splitter s 0 (String c ""))%list
      end
  | Some (S k, caps) => (inj acc :: caps ++ split_loop inj splitter s k "")%list
  end.
Proof. reflexivity. Qed.

Lemma unescape_two c d s :
  unescape (String c (String d s)) =
  if Ascii.eqb c "\" && Ascii.eqb d "n" then String LF (unescape s)
  else String c (unescape (String d s)).
Proof. reflexivity. Qed.

Lemma split_escape_loop s :
  let splitter rest :=
    if prefix "\n" rest then Some (String.length "\n", @nil string) else None in
  (forall acc,
     join nl (split_loop (fun piece => piece) splitter s 0 acc) =
     (acc ++ unescape s)%string) /\
  (forall c acc,
     join nl (split_loop (fun piece => piece) splitter (String c s) 0 acc) =
     (acc ++ unescape (String c s))%string).
Proof.
  intros splitter.
  induction s as [| d s [IH1 IH2]].
  - split; intros.
    + cbn. now rewrite append_empty_r.
    + assert (Hsp : splitter (String c "") = None)
        by (unfold splitter; now rewrite prefix_escape).
      cbn [split_loop]. rewrite Hsp. reflexivity.
  - split; [exact (IH2 d) |]. intros c acc.
    assert (Hsp : splitter (String c (String d s)) =
                  if Ascii.eqb c "\" && Ascii.eqb d "n"
                  then Some (2, []) else None)
      by (unfold splitter; now rewrite prefix_escape).
    rewrite split_loop_scan, unescape_two, Hsp.
    destruct (Ascii.eqb c "\" && Ascii.eqb d "n").
    + cbn [app split_loop]. rewrite join_cons by apply split_loop_nonempty.
      now rewrite IH1.
    + rewrite (IH2 d), append_assoc. reflexivity.
Qed.

Lemma join_split_unescape s : join nl (split "\n" s) = unescape s.
Proof.
  unfold split, split_with. destruct s as [| c s]; [reflexivity |].
  exact (proj2 (split_escape_loop s) c "").
Qed.

Lemma unescape_head d s x r :
  unescape (String d s) = String x r -> x = d \/ x = LF.
Proof.
  cbn [unescape]. destruct s as [| e s].
  - intros [= <- _]. now left.
  - destruct (Ascii.eqb d "\" && Ascii.eqb e "n"); intros [= <- _]; auto.
Qed.

Lemma unescape_no_escape s :
  has_escape (unescape s) = false /\
  forall c, has_escape (unescape (String c s)) = false.
Proof.
  induction s as [| d s [IH1 IH2]].
  - split; [reflexivity |]. intros c. reflexivity.
  - split; [apply IH2 |]. intros c. rewrite unescape_two.
    destruct (Ascii.eqb c "\" && Ascii.eqb d "n") eqn:Hcd.
    + destruct (unescape s) as [| x r] eqn:Hr; [reflexivity |].
      change (has_escape (String LF (String x r)))
        with ((Ascii.eqb LF "\" && Ascii.eqb x "n") || has_escape (String x r)).
      rewrite IH1. reflexivity.
    + specialize (IH2 d).
      destruct (unescape (String d s)) as [| x r] eqn:Hr; [reflexivity |].
      change (has_escape (String c (String x r)))
        with ((Ascii.eqb c "\" && Ascii.eqb x "n") || has_escape (String x r)).
      rewrite IH2, orb_false_r.
      destruct (unescape_head _ _ _ _ Hr) as [-> | ->]; [exact Hcd |].
      apply andb_false_r.
Qed.

Lemma unescape_without_escape s :
  (has_escape s = false -> unescape s = s) /\
  forall c, has_escape (String c s) = false ->
            unescape (String c s) = String c s.
Proof.
  induction s as [| d s [IH1 IH2]].
  - split; reflexivity.
  - split; [apply IH2 |]. intros c H.
    cbn [has_escape] in H. apply orb_false_iff in H as [Hcd Hrest].
    rewrite unescape_two, Hcd. f_equal. now apply IH2.
Qed.

(** X1: splitting on the two characters backslash-n and joining with a
    line feed replaces, from left to right, every backslash-n by one line
    feed; no backslash-n is left after it, and an output without any is
    unchanged by it. *)
Theorem split_join_unescapes :
  (forall output,
     join nl (split "\n" output) = unescape output /\
     has_escape (join nl (split "\n" output)) = false) /\
  (forall output,
     has_escape output = false -> join nl (split "\n" output) = output).
Proof.
  split.
  - intros output. rewrite join_split_unescape.
    split; [reflexivity | apply unescape_no_escape].
  - intros output H. rewrite join_split_unescape.
    now apply unescape_without_escape.
Qed.

Lemma split_join_unescapes_witness :
  join nl (split "\n" "no escapes here") = "no escapes here".
Proof.
  exact (proj2 split_join_unescapes "no escapes here" eq_refl).
Defined.

(** X2: an output that holds no backslash-n and no blank line is shown and
    copied as it is. *)
Theorem normalize_clean_output output :
  has_escape output = false ->
  has_blank_line output = false ->
  normalize output = output.
Proof.
  intros He Hb. unfold normalize.
  rewrite join_split_unescape, replace_all_blank_line.
  rewrite (proj1 (unescape_without_escape output) He).
  now apply delete_pairs_without_blank_line.
Qed.

Lemma normalize_clean_output_witness :
  normalize ("BGP routing table" ++ nl ++ "Paths: 2 available") =
  "BGP routing table" ++ nl ++ "Paths: 2 available".
Proof.
  exact (normalize_clean_output
           ("BGP routing table" ++ nl ++ "Paths: 2 available")
           eq_refl eq_refl).
Defined.

(** ** Runs of line feeds *)

Lemma delete_pairs_other c s :
  Ascii.eqb c LF = false -> delete_pairs (String c s) = String c (delete_pairs s).
Proof.
  intros Hc. destruct s as [| d s]; [reflexivity |].
  cbn [delete_pairs]. now rewrite Hc.
Qed.

Lemma delete_pairs_line line s :
  has_line_feed line = false ->
  delete_pairs (line ++ s) = (line ++ delete_pairs s)%string.
Proof.
  induction line as [| c line IH]; [reflexivity |].
  cbn [has_line_feed append]. intros H.
  apply orb_false_iff in H as [Hc Hline].
  now rewrite (delete_pairs_other _ _ Hc), IH.
Qed.

Lemma delete_pairs_single rest :
  starts_with_line_feed rest = false ->
  delete_pairs (String LF rest) = String LF (delete_pairs rest).
Proof.
  destruct rest as [| d rest]; [reflexivity |].
  cbn [starts_with_line_feed delete_pairs]. intros ->.
  now rewrite andb_false_r.
Qed.

Lemma delete_pairs_run rest :
  starts_with_line_feed rest = false ->
  forall k,
    delete_pairs (newlines k ++ rest) =
      ((if Nat.even k then "" else nl) ++ delete_pairs rest)%string /\
    delete_pairs (newlines (S k) ++ rest) =
      ((if Nat.even (S k) then "" else nl) ++ delete_pairs rest)%string.
Proof.
  intros Hrest. induction k as [| k [IH1 IH2]].
  - split; [reflexivity |]. now apply delete_pairs_single.
  - split; [exact IH2 |].
    change (newlines (S (S k)) ++ rest)%string
      with (String LF (String LF (newlines k ++ rest))).
    cbn [delete_pairs]. rewrite Ascii.eqb_refl. exact IH1.
Qed.

(** X3: a run of [k] line feeds between a line and text that starts
    without one is deleted when [k] is even, which joins the two, and
    leaves a single line feed when [k] is odd. *)
Theorem blank_runs_by_parity line k rest :
  has_line_feed line = false ->
  starts_with_line_feed rest = false ->
  replace_all blank_line "" (line ++ newlines k ++ rest) =
  (line ++ (if Nat.even k then "" else nl) ++ replace_all blank_line "" rest)%string.
Proof.
  intros Hline Hrest. rewrite !replace_all_blank_line.
  rewrite (delete_pairs_line _ _ Hline).
  now rewrite (proj1 (delete_pairs_run rest Hrest k)).
Qed.

Lemma blank_runs_by_parity_witness :
  replace_all blank_line "" ("up" ++ newlines 3 ++ "down") =
  "up" ++ nl ++ "down" /\
  replace_all blank_line "" ("up" ++ newlines 4 ++ "down") = "updown".
Proof.
  split.
  - exact (blank_runs_by_parity "up" 3 "down" eq_refl eq_refl).
  - exact (blank_runs_by_parity "up" 4 "down" eq_refl eq_refl).
Defined.

(** ** When the component throws *)

(** X4: the component throws a TypeError, and so renders neither header
    nor buttons nor alert, exactly when [data] is truthy and its [output]
    is not a string; in every other state it returns a tree. *)
Theorem Result_throws_on_malformed_data config p st :
  (Result config p st = Throw TypeError <->
   truthy (data st) = true /\
   forall output, member (data st) "output" <> VStr output) /\
  (Result config p st <> Throw TypeError ->
   exists tree, Result config p st = Ok tree).
Proof.
  unfold Result, cleanOutput, bind.
  destruct (truthy (data st)).
  - destruct (member (data st) "output") as [| | b | n | s | l | l | f];
      cbn [truthy];
      try (split;
           [split; [intros _; split; [reflexivity | intros o; discriminate]
                   | intros _; reflexivity]
           | intros H; now destruct H]).
    split; [| eauto]. split; [discriminate |].
    intros [_ H]. now destruct (H s eq_refl).
  - split; [| eauto]. split; [discriminate | intros [[=] _]].
Qed.

Lemma Result_throws_on_malformed_data_witness :
  Result sample_config sample_props malformed_answer = Throw TypeError.
Proof.
  apply (proj1 (Result_throws_on_malformed_data
                  sample_config sample_props malformed_answer)).
  split; [reflexivity | discriminate].
Defined.

(** ** What the alert shows *)

(** X5: when the error's response carries a non-empty [output], the alert
    shows that output, whatever [error.message] and the configured message
    are. *)
Theorem structured_output_shown_first config p st tree :
  Result config p st = Ok tree ->
  truthy (error st) = true ->
  truthy (response_data (error st) "output") = true ->
  map (prop "message") (find "FormattedError" tree) =
  [Some (response_data (error st) "output")].
Proof.
  intros H He Hout. apply Result_inv in H as (v & _ & ->).
  rewrite find_view_FormattedError, He. cbn [map].
  unfold prop, props_of, prop_in. cbn.
  unfold errorMsg, or_, and_. rewrite He, Hout. now rewrite Hout.
Qed.

Lemma structured_output_shown_first_witness :
  map (prop "message")
      (find "FormattedError"
         (view sample_config sample_props rejected_query VUndefined)) =
  [Some (VStr "192.0.2.0/24 is not allowed")].
Proof.
  exact (structured_output_shown_first sample_config sample_props
           rejected_query _ eq_refl eq_refl eq_refl).
Defined.

(** X6: the keywords handed to [FormattedError] are the response's
    [keywords] when it carries any, and the empty array otherwise: the prop
    is never undefined. *)
Theorem keywords_default_to_empty config p st tree :
  Result config p st = Ok tree ->
  truthy (error st) = true ->
  map (prop "keywords") (find "FormattedError" tree) =
  [Some (if truthy (response_data (error st) "keywords")
         then response_data (error st) "keywords"
         else VArr [])].
Proof.
  intros H He. apply Result_inv in H as (v & _ & ->).
  rewrite find_view_FormattedError, He. cbn [map].
  unfold prop, props_of, prop_in. cbn.
  unfold errorKw, or_, and_. now rewrite He.
Qed.

Lemma keywords_default_to_empty_witness :
  map (prop "keywords")
      (find "FormattedError"
         (view sample_config sample_props rejected_query VUndefined)) =
  [Some (VArr [VStr "192.0.2.0/24"])] /\
  map (prop "keywords")
      (find "FormattedError"
         (view sample_config sample_props network_error VUndefined)) =
  [Some (VArr [])].
Proof.
  split.
  - exact (keywords_default_to_empty sample_config sample_props
             rejected_query _ eq_refl eq_refl).
  - exact (keywords_default_to_empty sample_config sample_props
             network_error _ eq_refl eq_refl).
Defined.

(** ** The request *)

(** X8: the request depends on the four query props and the timeout and
    on nothing else: two panels send the same request exactly when they
    agree on these five props, whatever their devices. *)
Theorem request_determined_by_query_props p q :
  requestConfig p = requestConfig q <->
  queryLocation p = queryLocation q /\
  queryType p = queryType q /\
  queryVrf p = queryVrf q /\
  queryTarget p = queryTarget q /\
  timeout p = timeout q.
Proof.
  unfold requestConfig. split.
  - intros [= -> -> -> -> ->]. repeat split.
  - intros (-> & -> & -> & -> & ->). reflexivity.
Qed.

(** ** Messages with and without keywords *)

Lemma match_at_keywords_none k ks s :
  (forall kw, In kw (k :: ks) -> prefix_match true kw s = false) ->
  match_at (mkRegExp (Seq (Group (any_of k ks)) Empty) true true) s = None.
Proof.
  intros H. unfold match_at. cbn [ast ignoreCase].
  rewrite run_outer_group.
  destruct (run true (any_of k ks) s) as [| [[t rest] c] l] eqn:Hrun;
    [reflexivity |].
  destruct (run_any_of_sound true ks k s t rest c) as (kw & Hkw & Hp & _).
  { rewrite Hrun. now left. }
  rewrite (H kw Hkw) in Hp. discriminate.
Qed.

Lemma split_loop_without_match k ks s : forall acc,
  (forall kw, In kw (k :: ks) -> mentions kw s = false) ->
  split_loop Some
    (fun rest =>
       match match_at (mkRegExp (Seq (Group (any_of k ks)) Empty) true true)
               rest with
       | Some (t, caps) => Some (String.length t, caps)
       | None => None
       end) s 0 acc = [Some (acc ++ s)%string].
Proof.
  induction s as [| c s IH]; intros acc H.
  - cbn. now rewrite append_empty_r.
  - rewrite split_loop_scan, match_at_keywords_none.
    + rewrite IH, append_assoc; [reflexivity |].
      intros kw Hkw. specialize (H kw Hkw). cbn [mentions] in H.
      now apply orb_false_iff in H.
    + intros kw Hkw. specialize (H kw Hkw). cbn [mentions] in H.
      now apply orb_false_iff in H.
Qed.

Lemma FormattedError_without_keyword k ks msg :
  forallb plain_keyword (k :: ks) = true ->
  (forall kw, In kw (k :: ks) -> mentions kw msg = false) ->
  FormattedError (k :: ks) msg = Ok [Plain msg].
Proof.
  intros Hplain H. unfold FormattedError.
  rewrite (RegExp_plain_keywords k ks Hplain). cbn [bind].
  unfold strReplace, replaceString.
  destruct (String.eqb_spec msg "") as [-> | Hmsg]; [reflexivity |].
  unfold split_regexp, split_with. destruct msg as [| c msg]; [contradiction |].
  now rewrite (split_loop_without_match k ks _ "" H).
Qed.

Lemma plain_keywords_fragments k ks msg :
  forallb plain_keyword (k :: ks) = true ->
  forallb nonempty (k :: ks) = true ->
  exists fs,
    FormattedError (k :: ks) msg = Ok fs /\
    alternating fs = true /\
    text_content fs = msg /\
    (forall p kw, In (Plain p) fs -> In kw (k :: ks) -> mentions kw p = false) /\
    (forall key m,
       In (Strong key m) fs ->
       key = m /\ exists kw, In kw (k :: ks) /\ same_ignoring_case m kw = true).
Proof.
  intros Hplain Hne.
  pose (re := mkRegExp (Seq (Group (any_of k ks)) Empty) true true).
  destruct (FormattedError_fragments (k :: ks) re (any_of k ks)
              (fun p => forall kw, In kw (k :: ks) -> mentions kw p = false)
              (fun m => exists kw,
                 In kw (k :: ks) /\ same_ignoring_case m kw = true)
              (fun acc s =>
                 forall kw, In kw (k :: ks) -> starts_in kw acc s = false)
              (RegExp_plain_keywords k ks Hplain) eq_refl (groups_any_of k ks))
    with (msg := msg) as (fs & Hfs & Halt & Htext & HP & HM).
  - intros s t rest Hin. cbn [ignoreCase re] in Hin.
    apply run_any_of_sound in Hin as (kw & Hkw & Hp & ->).
    exists kw. split; [exact Hkw | now apply prefix_match_take].
  - intros kw Hkw. pose proof (nonempty_keyword _ _ Hne Hkw).
    destruct kw; [contradiction | reflexivity].
  - reflexivity.
  - intros acc c s Hacc Hnone kw Hkw.
    rewrite starts_in_snoc, (Hacc kw Hkw). cbn [orb].
    apply (match_at_none re (any_of k ks)) in Hnone; [| reflexivity].
    destruct (prefix_match true kw (String c s)) eqn:Hp; [| reflexivity].
    now destruct (run_any_of_complete true ks k (String c s) kw Hkw Hp).
  - intros c s caps Hm kw Hkw.
    destruct (match_at_outer_group re (any_of k ks) _ _ _ eq_refl
                (groups_any_of k ks) Hm) as (_ & _ & rest & Hin).
    cbn [ignoreCase re] in Hin.
    apply run_any_of_sound in Hin as (kw' & Hkw' & Hp & Ht).
    symmetry in Ht. apply (prefix_match_take_empty _ _ _ Hp) in Ht.
    subst kw'. now destruct (nonempty_keyword _ _ Hne Hkw').
  - intros acc s Hacc kw Hkw.
    apply (starts_in_mentions kw acc s);
      [exact (nonempty_keyword _ _ Hne Hkw) | now apply Hacc].
  - exists fs. split; [exact Hfs |]. split; [exact Halt |].
    split; [exact Htext |]. split; [| exact HM].
    intros p kw Hp Hkw. exact (HP p Hp kw Hkw).
Qed.

Lemma alternating_shape fs :
  alternating fs = true ->
  (exists p, fs = [Plain p]) \/ exists key m, In (Strong key m) fs.
Proof.
  destruct fs as [| [p | key m] [| [q | key' m'] rest]]; cbn; try discriminate.
  - intros _. left. now exists p.
  - intros _. right. exists key', m'. now right; left.
Qed.

(** X10: with non-empty keywords free of syntax characters, a message
    that mentions none of them (in any letter case) is rendered as one
    plain fragment equal to the message, and a message that mentions one
    gets at least one emphasised fragment. *)
Theorem emphasis_iff_keyword_occurs k ks msg :
  forallb plain_keyword (k :: ks) = true ->
  forallb nonempty (k :: ks) = true ->
  ((forall kw, In kw (k :: ks) -> mentions kw msg = false) <->
   FormattedError (k :: ks) msg = Ok [Plain msg]) /\
  ((exists kw, In kw (k :: ks) /\ mentions kw msg = true) ->
   exists fs m,
     FormattedError (k :: ks) msg = Ok fs /\ In (Strong m m) fs).
Proof.
  intros Hplain Hne.
  destruct (plain_keywords_fragments k ks msg Hplain Hne)
    as (fs & Hfs & Halt & Htext & HP & HM).
  split; [split |].
  - now apply FormattedError_without_keyword.
  - intros H kw Hkw. rewrite H in Hfs. injection Hfs as <-.
    apply (HP msg kw); [now left | exact Hkw].
  - intros (kw & Hkw & Hocc).
    destruct (alternating_shape fs Halt) as [[p ->] | (key & m & Hin)].
    + cbn in Htext. subst p.
      rewrite (HP msg kw (or_introl eq_refl) Hkw) in Hocc. discriminate.
    + exists fs, m. split; [exact Hfs |].
      now destruct (HM key m Hin) as [-> _].
Qed.

Lemma emphasis_iff_keyword_occurs_witness :
  FormattedError ["timeout"; "refused"] "Network Error" =
  Ok [Plain "Network Error"].
Proof.
  apply (proj1 (emphasis_iff_keyword_occurs "timeout" ["refused"]
                  "Network Error" eq_refl eq_refl)).
  intros kw [<- | [<- | []]]; reflexivity.
Defined.

(** ** No keywords *)

(** X11: with the empty keyword list, which is what an error without
    keywords gets, the pattern matches the empty string everywhere: the
    message is cut into fragments of at most one character each, every
    emphasised fragment between them is empty, and the fragments still
    spell the message. *)
Theorem no_keywords_splits_into_characters msg :
  exists fs,
    FormattedError [] msg = Ok fs /\
    alternating fs = true /\
    text_content fs = msg /\
    (forall key m, In (Strong key m) fs -> m = "") /\
    (forall p, In (Plain p) fs -> String.length p <= 1).
Proof.
  destruct (FormattedError_fragments [] (mkRegExp (Seq (Group Empty) Empty) true true)
              Empty
              (fun p => String.length p <= 1)
              (fun m => m = "")
              (fun acc _ => String.length acc <= 1)
              eq_refl eq_refl eq_refl)
    with (msg := msg) as (fs & Hfs & Halt & Htext & HP & HM).
  - intros s t rest [[= <- _] | []]. reflexivity.
  - cbn. lia.
  - intros s. cbn. lia.
  - intros acc c s _ Hnone. cbv in Hnone. discriminate Hnone.
  - intros c s caps _. cbn. lia.
  - intros acc s H. exact H.
  - exists fs. split; [exact Hfs |]. split; [exact Halt |].
    split; [exact Htext |]. split; [| exact HP].
    intros key m Hin. now destruct (HM key m Hin).
Qed.

(** ** A match depends on the matched text only *)

Lemma length_append (a b : string) :
  String.length (a ++ b) = String.length a + String.length b.
Proof. induction a as [| c a IH]; cbn; [reflexivity | now rewrite IH]. Qed.

Lemma drop_all t : drop (String.length t) t = "".
Proof. induction t as [| c t IH]; cbn; [reflexivity | exact IH]. Qed.

Lemma drop_plus a b : forall n,
  drop (String.length a + n) (a ++ b) = drop n b.
Proof. induction a as [| c a IH]; intros n; cbn; [reflexivity | apply IH]. Qed.

Lemma prefix_split t : forall p u s1,
  (p ++ u)%string = (t ++ s1)%string ->
  String.length t <= String.length p ->
  p = (t ++ drop (String.length t) p)%string /\
  s1 = (drop (String.length t) p ++ u)%string.
Proof.
  induction t as [| c t IH]; intros p u s1 H Hlen; cbn in *.
  - now split.
  - destruct p as [| d p]; cbn in *; [lia |].
    injection H as -> H.
    destruct (IH p u s1 H ltac:(lia)) as [Hp Hs]. split; [| exact Hs].
    now rewrite <- Hp.
Qed.

Lemma flat_map_flat_map {A B C : Type} (f : A -> list B) (g : B -> list C) l :
  flat_map g (flat_map f l) = flat_map (fun a => flat_map g (f a)) l.
Proof.
  induction l as [| a l IH]; cbn; [reflexivity |].
  now rewrite flat_map_app, IH.
Qed.

Lemma flat_map_ext_in {A B : Type} (f g : A -> list B) l :
  (forall a, In a l -> f a = g a) -> flat_map f l = flat_map g l.
Proof.
  induction l as [| a l IH]; intros H; cbn; [reflexivity |].
  rewrite (H a (or_introl eq_refl)), IH; [reflexivity |].
  intros b Hb. apply H. now right.
Qed.

Lemma flat_map_map {A B C : Type} (f : A -> B) (g : B -> list C) l :
  flat_map g (map f l) = flat_map (fun a => g (f a)) l.
Proof. induction l as [| a l IH]; cbn; [reflexivity | now rewrite IH]. Qed.

Lemma map_flat_map {A B C : Type} (f : A -> list B) (g : B -> C) l :
  map g (flat_map f l) = flat_map (fun a => map g (f a)) l.
Proof.
  induction l as [| a l IH]; cbn; [reflexivity |].
  now rewrite map_app, IH.
Qed.

(** Changing the captures of the matches commutes with [restrict]. *)
Lemma restrict_map_captures (h : string -> list capture -> list capture) p l :
  restrict p (map (fun m : matching =>
                     let '(t, s', c) := m in (t, s', h t c)) l) =
  map (fun m : matching => let '(t, s', c) := m in (t, s', h t c))
      (restrict p l).
Proof.
  unfold restrict. rewrite flat_map_map, map_flat_map.
  apply flat_map_ext. intros [[t s'] c].
  destruct (String.length t <=? String.length p)%nat; reflexivity.
Qed.

(** Prepending the text of an earlier match. *)
Lemma restrict_map_prepend t1 c1 p1 l :
  restrict (t1 ++ p1)
    (map (fun m : matching =>
            let '(t2, s2, c2) := m in ((t1 ++ t2)%string, s2, (c1 ++ c2)%list))
         l) =
  map (fun m : matching =>
         let '(t2, s2, c2) := m in ((t1 ++ t2)%string, s2, (c1 ++ c2)%list))
      (restrict p1 l).
Proof.
  unfold restrict. rewrite flat_map_map, map_flat_map.
  apply flat_map_ext. intros [[t2 s2] c2].
  rewrite !length_append, drop_plus.
  replace (String.length t1 + String.length t2 <=?
           String.length t1 + String.length p1)%nat
    with (String.length t2 <=? String.length p1)%nat.
  - destruct (String.length t2 <=? String.length p1)%nat; reflexivity.
  - destruct (Nat.leb_spec (String.length t2) (String.length p1));
      symmetry; [apply Nat.leb_le | apply Nat.leb_gt]; lia.
Qed.

Lemma restrict_map_too_long t1 c1 p l :
  String.length p < String.length t1 ->
  restrict p
    (map (fun m : matching =>
            let '(t2, s2, c2) := m in ((t1 ++ t2)%string, s2, (c1 ++ c2)%list))
         l) = [].
Proof.
  intros Hlen. unfold restrict. rewrite flat_map_map.
  induction l as [| [[t2 s2] c2] l IH]; [reflexivity |].
  cbn [flat_map]. rewrite IH, length_append.
  destruct (Nat.leb_spec (String.length t1 + String.length t2)
                         (String.length p)); [lia | reflexivity].
Qed.

(** The matches on a prefix [p] of the input are, in the same order, the
    matches on the whole input that end inside [p]. *)
Lemma run_restrict ic r : forall p u,
  run ic r p = restrict p (run ic r (p ++ u)).
Proof.
  induction r as [| c | | r1 IH1 r2 IH2 | r1 IH1 r2 IH2 | r1 IH1];
    intros p u.
  - reflexivity.
  - destruct p as [| d p]; cbn [run append].
    + destruct u as [| d u]; [reflexivity |].
      destruct (char_eq ic d c); reflexivity.
    + destruct (char_eq ic d c); reflexivity.
  - destruct p as [| d p]; cbn [run append].
    + destruct u as [| d u]; [reflexivity |].
      destruct (line_terminator d); reflexivity.
    + destruct (line_terminator d); reflexivity.
  - cbn [run]. rewrite (IH1 p u). unfold restrict at 1 2.
    rewrite !flat_map_flat_map.
    apply flat_map_ext_in. intros [[t1 s1] c1] Hin.
    destruct (run_sound ic r1 _ _ _ _ Hin) as [Hs _].
    destruct (Nat.leb_spec (String.length t1) (String.length p)) as [Hle | Hgt].
    + destruct (prefix_split t1 p u s1 Hs Hle) as [Hp Hs1].
      cbn [flat_map]. rewrite app_nil_r.
      rewrite (IH2 (drop (String.length t1) p) u), <- Hs1.
      rewrite <- restrict_map_prepend, <- Hp. reflexivity.
    + cbn [flat_map]. symmetry. now apply restrict_map_too_long.
  - cbn [run]. rewrite (IH1 p u), (IH2 p u).
    unfold restrict at 3. rewrite flat_map_app. fold (restrict p).
    f_equal.
    + symmetry.
      apply (restrict_map_captures
               (fun _ c => (c ++ undefined_captures (groups r2))%list)).
    + symmetry.
      apply (restrict_map_captures
               (fun _ c => (undefined_captures (groups r1) ++ c)%list)).
  - cbn [run]. rewrite (IH1 p u). symmetry.
    apply (restrict_map_captures (fun t c => Some t :: c)).
Qed.

(** What the pattern matches at the start of an input, it matches in full
    when it is given that text alone. *)
Lemma match_at_matched_text re s t caps :
  match_at re s = Some (t, caps) -> match_at re t = Some (t, caps).
Proof.
  unfold match_at.
  destruct (run (ignoreCase re) (ast re) s) as [| [[t0 rest0] c0] l] eqn:Hrun;
    [discriminate |].
  intros [= <- <-].
  destruct (run_sound (ignoreCase re) (ast re) s t0 rest0 c0) as [Hs _].
  { rewrite Hrun. now left. }
  rewrite (run_restrict _ _ t0 rest0), <- Hs, Hrun.
  unfold restrict. cbn [flat_map]. rewrite Nat.leb_refl, drop_all.
  reflexivity.
Qed.

(** A match stays a match when the input goes on. *)
Lemma matches_here_extend re u s :
  matches_here re u = true -> matches_here re (u ++ s) = true.
Proof.
  unfold matches_here, match_at. rewrite (run_restrict _ _ u s).
  destruct (run (ignoreCase re) (ast re) (u ++ s)) as [| [[t r] c] l];
    [discriminate | reflexivity].
Qed.

(** ** The alternation of the keywords' patterns *)

Lemma scan_shift s : forall C1 C T,
  scan s (mkFrame (C1 ++ C) T) =
  mkFrame (closed (scan s (mkFrame C1 T)) ++ C)
          (terms (scan s (mkFrame C1 T))).
Proof.
  induction s as [| c s IH]; intros C1 C T; [reflexivity |].
  cbn [scan]. unfold scan_char.
  destruct (Ascii.eqb c "|"); [| destruct (Ascii.eqb c ".")].
  - unfold next_alternative. cbn [closed terms].
    apply (IH (alternative (rev T) :: C1)).
  - apply IH.
  - apply IH.
Qed.

Lemma scan_after_bar s C :
  scan s (mkFrame C []) =
  mkFrame (closed (scan s empty_frame) ++ C) (terms (scan s empty_frame)).
Proof. exact (scan_shift s [] C []). Qed.

Lemma close_frame_alternatives f :
  close_frame f =
  match alternatives_of f with
  | [] => Empty
  | first :: others => disjunction first others
  end.
Proof. reflexivity. Qed.

Lemma alternatives_nonempty f : alternatives_of f <> [].
Proof.
  unfold alternatives_of. cbn [rev]. intros H.
  apply app_eq_nil in H as [_ H]. discriminate.
Qed.

Lemma alternatives_groupless s :
  Forall groupless (alternatives_of (scan s empty_frame)).
Proof.
  destruct (scan_groupless s empty_frame) as [Hc Ht]; try constructor.
  unfold alternatives_of. apply Forall_rev. constructor; [| exact Hc].
  apply groups_alternative. now apply Forall_rev.
Qed.

Lemma alternatives_join ks : forall k,
  alternatives_of (scan (join "|" (k :: ks)) empty_frame) =
  flat_map (fun kw => alternatives_of (scan kw empty_frame)) (k :: ks).
Proof.
  unfold join.
  induction ks as [| k' ks IH]; intros k.
  - cbn [String.concat flat_map]. now rewrite app_nil_r.
  - change (String.concat "|" (k :: k' :: ks))
      with (k ++ String "|" (String.concat "|" (k' :: ks)))%string.
    rewrite scan_append. cbn [scan]. unfold scan_char at 1.
    cbn [Ascii.eqb Bool.eqb]. unfold next_alternative.
    rewrite scan_after_bar.
    change (flat_map (fun kw => alternatives_of (scan kw empty_frame))
              (k :: k' :: ks))
      with (alternatives_of (scan k empty_frame) ++
            flat_map (fun kw => alternatives_of (scan kw empty_frame))
              (k' :: ks))%list.
    rewrite <- IH. unfold alternatives_of, empty_frame.
    cbn [closed terms rev]. rewrite rev_app_distr. cbn [rev].
    now rewrite <- app_assoc.
Qed.

Lemma run_groupless_captures ic r s t rest c :
  groupless r -> In (t, rest, c) (run ic r s) -> c = [].
Proof.
  intros Hr Hin. apply run_sound in Hin as [_ Hlen].
  rewrite Hr in Hlen. now destruct c.
Qed.

Lemma run_disjunction ic s rs : forall r,
  Forall groupless (r :: rs) ->
  run ic (disjunction r rs) s = flat_map (fun r' => run ic r' s) (r :: rs).
Proof.
  induction rs as [| r' rs IH]; intros r H.
  - cbn. now rewrite app_nil_r.
  - inversion H as [| ? ? Hr Hrs]; subst.
    cbn [disjunction run].
    change (flat_map (fun r0 => run ic r0 s) (r :: r' :: rs))
      with (run ic r s ++ flat_map (fun r0 => run ic r0 s) (r' :: rs))%list.
    rewrite <- (IH r' Hrs).
    assert (Hd : groups (disjunction r' rs) = 0).
    { inversion Hrs; subst. now apply groups_disjunction. }
    rewrite Hd, Hr. cbn [undefined_captures repeat app].
    f_equal.
    + rewrite <- (map_id (run ic r s)) at 2. apply map_ext_in.
      intros [[t rest] c] Hin.
      rewrite (run_groupless_captures _ _ _ _ _ _ Hr Hin). reflexivity.
    + rewrite <- map_id. apply map_ext. now intros [[t rest] c].
Qed.

Lemma run_close_frame ic s kw :
  run ic (keyword_pattern kw) s =
  flat_map (fun r => run ic r s) (alternatives_of (scan kw empty_frame)).
Proof.
  unfold keyword_pattern. rewrite close_frame_alternatives.
  pose proof (alternatives_groupless kw) as Hg.
  pose proof (alternatives_nonempty (scan kw empty_frame)) as Hne.
  destruct (alternatives_of (scan kw empty_frame)) as [| r rs];
    [contradiction |].
  now apply run_disjunction.
Qed.

(** The pattern built from the keywords matches what the keywords' own
    patterns match, keyword by keyword in the order of the list. *)
Lemma run_keyword_alternation ic s k ks :
  run ic (keyword_pattern (join "|" (k :: ks))) s =
  flat_map (fun kw => run ic (keyword_pattern kw) s) (k :: ks).
Proof.
  rewrite run_close_frame, alternatives_join, flat_map_flat_map.
  apply flat_map_ext. intros kw. symmetry. apply run_close_frame.
Qed.

Lemma parse_flat_keyword kw :
  flat_pattern kw = true -> parse kw = Parsed (keyword_pattern kw).
Proof.
  intros H. unfold parse.
  rewrite <- (append_empty_r kw) at 1.
  now rewrite (parse_loop_flat kw "" empty_frame [] H).
Qed.

(** ** Fragments for keywords without parentheses *)

Lemma matches_in_snoc re acc : forall c s,
  matches_in re (acc ++ String c "") s =
  matches_in re acc (String c s) || matches_here re (String c s).
Proof.
  induction acc as [| a acc IH]; intros c s.
  - cbn [append matches_in]. now rewrite orb_false_r.
  - cbn [append matches_in]. rewrite IH, append_assoc. cbn [append].
    now rewrite orb_assoc.
Qed.

Lemma matches_in_finds re acc s :
  matches_here re "" = false ->
  matches_in re acc s = false -> finds re acc = false.
Proof.
  intros Hempty. induction acc as [| a acc IH].
  - intros _. cbn [finds]. now rewrite Hempty.
  - cbn [matches_in finds]. intros H.
    apply orb_false_iff in H as [Hhere Hlater].
    rewrite (IH Hlater), orb_false_r.
    destruct (matches_here re (String a acc)) eqn:Hm; [| reflexivity].
    apply (matches_here_extend re _ s) in Hm. congruence.
Qed.

Lemma flat_keywords_fragments kws msg :
  forallb flat_pattern kws = true ->
  let re :=
    mkRegExp (Seq (Group (keyword_pattern (join "|" kws))) Empty) true true in
  exists fs,
    FormattedError kws msg = Ok fs /\
    alternating fs = true /\
    text_content fs = msg /\
    (forall key m,
       In (Strong key m) fs -> key = m /\ match_at re m = Some (m, [Some m])) /\
    (matches_here re "" = false ->
     forall p, In (Plain p) fs -> finds re p = false).
Proof.
  intros Hflat re.
  assert (Hre : RegExp (patternStr kws) "gi" = Ok re)
    by now apply RegExp_patternStr.
  unfold FormattedError. rewrite Hre. cbn [bind].
  unfold strReplace, replaceString.
  destruct (String.eqb_spec msg "") as [-> | Hmsg].
  - exists [Plain ""].
    split; [reflexivity |]. split; [reflexivity |]. split; [reflexivity |].
    split.
    + now intros key m [? | []].
    + intros Hempty p [[= <-] | []]. cbn [finds]. now rewrite Hempty.
  - destruct (split_regexp_pieces re
                (fun p => matches_here re "" = false -> finds re p = false)
                (fun m => match_at re m = Some (m, [Some m]))
                (fun acc s =>
                   matches_here re "" = false -> matches_in re acc s = false))
      with (s := msg) as [Hp Hj].
    + intros s t caps Hm.
      destruct (match_at_outer_group re _ s t caps eq_refl
                  (groups_keyword_pattern kws) Hm) as (-> & Hrest & _).
      split; [reflexivity |]. split; [exact Hrest |].
      exact (match_at_matched_text _ _ _ _ Hm).
    + reflexivity.
    + intros acc c s Hacc Hnone Hempty.
      rewrite matches_in_snoc, (Hacc Hempty). unfold matches_here.
      now rewrite Hnone.
    + intros c s caps Hm Hempty.
      apply match_at_matched_text in Hm.
      unfold matches_here in Hempty. now rewrite Hm in Hempty.
    + intros acc s Hacc Hempty.
      exact (matches_in_finds re acc s Hempty (Hacc Hempty)).
    + exact Hmsg.
    + destruct (apply_odd_pieces _ _ _ Hp)
        as (fs & Hfs & Halt & Htext & HP & HM).
      exists fs. split; [exact Hfs |]. split; [exact Halt |].
      split; [now rewrite Htext |]. split; [exact HM |].
      intros Hempty p Hin. exact (HP p Hin Hempty).
Qed.

(** ** Emphasised matches (C2) *)

(** C2, amended: for a non-empty list of keywords that use none of the
    operators [\ ^ $ * + ? ( ) [ ] { }] (so that they bring no group of
    their own) and every message, [FormattedError] builds the global,
    case-insensitive pattern that groups the alternation of the keywords'
    patterns, tried in the order of the list; the fragments alternate
    between plain text and emphasised matches and spell the message; every
    emphasised text is matched in full by the pattern; and when the pattern
    cannot match the empty string, it matches nowhere inside a plain
    fragment.  For ["timeout"] and "Request timeout occurred" the fragments
    are "Request ", the emphasised "timeout" and " occurred", and the
    match keeps the letter case of the message. *)
Theorem FormattedError_emphasises_matches kws msg :
  kws <> [] ->
  forallb flat_pattern kws = true ->
  (exists re g fs,
     RegExp (patternStr kws) "gi" = Ok re /\
     ast re = Seq (Group g) Empty /\
     global re = true /\
     ignoreCase re = true /\
     (forall s,
        run true g s = flat_map (fun kw => run true (keyword_pattern kw) s) kws) /\
     (forall kw, In kw kws -> parse kw = Parsed (keyword_pattern kw)) /\
     FormattedError kws msg = Ok fs /\
     alternating fs = true /\
     text_content fs = msg /\
     (forall key m,
        In (Strong key m) fs ->
        key = m /\ match_at re m = Some (m, [Some m])) /\
     (matches_here re "" = false ->
      forall p, In (Plain p) fs -> finds re p = false)) /\
  FormattedError ["timeout"] "Request timeout occurred" =
    Ok [Plain "Request "; Strong "timeout" "timeout"; Plain " occurred"] /\
  FormattedError ["timeout"] "Request TIMEOUT occurred" =
    Ok [Plain "Request "; Strong "TIMEOUT" "TIMEOUT"; Plain " occurred"].
Proof.
  intros Hne Hflat. split; [| split; reflexivity].
  destruct (flat_keywords_fragments kws msg Hflat)
    as (fs & Hfs & Halt & Htext & HM & HP).
  exists (mkRegExp (Seq (Group (keyword_pattern (join "|" kws))) Empty)
            true true),
    (keyword_pattern (join "|" kws)), fs.
  split; [now apply RegExp_patternStr |].
  split; [reflexivity |]. split; [reflexivity |]. split; [reflexivity |].
  split.
  { destruct kws as [| k ks]; [contradiction |].
    intros s. apply run_keyword_alternation. }
  split.
  { intros kw Hkw. apply parse_flat_keyword.
    rewrite forallb_forall in Hflat. now apply Hflat. }
  split; [exact Hfs |]. split; [exact Halt |]. split; [exact Htext |].
  split; [exact HM | exact HP].
Qed.

Lemma FormattedError_emphasises_matches_witness :
  (exists re g fs,
     RegExp (patternStr ["192.0.2.0/24"; "not allowed"]) "gi" = Ok re /\
     ast re = Seq (Group g) Empty /\
     global re = true /\
     ignoreCase re = true /\
     (forall s,
        run true g s =
        flat_map (fun kw => run true (keyword_pattern kw) s)
          ["192.0.2.0/24"; "not allowed"]) /\
     (forall kw,
        In kw ["192.0.2.0/24"; "not allowed"] ->
        parse kw = Parsed (keyword_pattern kw)) /\
     FormattedError ["192.0.2.0/24"; "not allowed"]
       "192.0.2.0/24 is not allowed" = Ok fs /\
     alternating fs = true /\
     text_content fs = "192.0.2.0/24 is not allowed" /\
     (forall key m,
        In (Strong key m) fs ->
        key = m /\ match_at re m = Some (m, [Some m])) /\
     (matches_here re "" = false ->
      forall p, In (Plain p) fs -> finds re p = false)) /\
  FormattedError ["timeout"] "Request timeout occurred" =
    Ok [Plain "Request "; Strong "timeout" "timeout"; Plain " occurred"] /\
  FormattedError ["timeout"] "Request TIMEOUT occurred" =
    Ok [Plain "Request "; Strong "TIMEOUT" "TIMEOUT"; Plain " occurred"].
Proof.
  apply (FormattedError_emphasises_matches
           ["192.0.2.0/24"; "not allowed"] "192.0.2.0/24 is not allowed");
    [discriminate | reflexivity].
Defined.

(** ** The value offered for copying (C10) *)

Lemma has_escape_two c d s :
  has_escape (String c (String d s)) =
  (Ascii.eqb c "\" && Ascii.eqb d "n") || has_escape (String d s).
Proof. reflexivity. Qed.

Lemma has_blank_line_two c d s :
  has_blank_line (String c (String d s)) =
  (Ascii.eqb c LF && Ascii.eqb d LF) || has_blank_line (String d s).
Proof. reflexivity. Qed.

Lemma delete_pairs_two c d s :
  delete_pairs (String c (String d s)) =
  if Ascii.eqb c LF && Ascii.eqb d LF then delete_pairs s
  else String c (delete_pairs (String d s)).
Proof. reflexivity. Qed.

Lemma unescape_length s :
  (String.length (unescape s) <= String.length s /\
   (has_escape s = true -> String.length (unescape s) < String.length s)) /\
  forall c,
    String.length (unescape (String c s)) <= String.length (String c s) /\
    (has_escape (String c s) = true ->
     String.length (unescape (String c s)) < String.length (String c s)).
Proof.
  induction s as [| d s [[IH1 IH1'] IH2]].
  - split; [split; [apply Nat.le_refl | discriminate] |].
    intros c. split; [apply Nat.le_refl | discriminate].
  - split; [apply IH2 |]. intros c.
    rewrite unescape_two, has_escape_two.
    destruct (Ascii.eqb c "\" && Ascii.eqb d "n").
    + cbn [String.length]. split; [lia | intros _; lia].
    + destruct (IH2 d) as [Hle Hlt]. cbn [orb].
      change (String.length (String c (unescape (String d s))))
        with (S (String.length (unescape (String d s)))).
      change (String.length (String c (String d s)))
        with (S (String.length (String d s))).
      split; [lia | intros H; specialize (Hlt H); lia].
Qed.

Lemma delete_pairs_length s :
  (String.length (delete_pairs s) <= String.length s /\
   (has_blank_line s = true ->
    String.length (delete_pairs s) < String.length s)) /\
  forall c,
    String.length (delete_pairs (String c s)) <= String.length (String c s) /\
    (has_blank_line (String c s) = true ->
     String.length (delete_pairs (String c s)) < String.length (String c s)).
Proof.
  induction s as [| d s [[IH1 IH1'] IH2]].
  - split; [split; [apply Nat.le_refl | discriminate] |].
    intros c. split; [apply Nat.le_refl | discriminate].
  - split; [apply IH2 |]. intros c.
    rewrite delete_pairs_two, has_blank_line_two.
    destruct (Ascii.eqb c LF && Ascii.eqb d LF).
    + cbn [String.length]. split; [lia | intros _; lia].
    + destruct (IH2 d) as [Hle Hlt]. cbn [orb].
      change (String.length (String c (delete_pairs (String d s))))
        with (S (String.length (delete_pairs (String d s)))).
      change (String.length (String c (String d s)))
        with (S (String.length (String d s))).
      split; [lia | intros H; specialize (Hlt H); lia].
Qed.

Lemma normalize_spelled_out output :
  normalize output = delete_pairs (unescape output).
Proof.
  unfold normalize. now rewrite join_split_unescape, replace_all_blank_line.
Qed.

(** The normalized output is the raw output only when there was nothing to
    normalize. *)
Lemma normalize_fixes output :
  normalize output = output <->
  has_escape output = false /\ has_blank_line output = false.
Proof.
  split.
  - rewrite normalize_spelled_out. intros H.
    pose proof (proj1 (unescape_length output)) as [Hule Hult].
    pose proof (proj1 (delete_pairs_length (unescape output))) as [Hdle Hdlt].
    assert (Hlen : String.length (delete_pairs (unescape output)) =
                   String.length output) by now rewrite H.
    destruct (has_escape output) eqn:He.
    { specialize (Hult eq_refl). lia. }
    split; [reflexivity |].
    rewrite (proj1 (unescape_without_escape output) He) in *.
    destruct (has_blank_line output); [| reflexivity].
    specialize (Hdlt eq_refl). lia.
  - intros [He Hb]. rewrite normalize_spelled_out.
    rewrite (proj1 (unescape_without_escape output) He).
    now apply delete_pairs_without_blank_line.
Qed.

(** C10, as stated, fails: for a response whose body is the empty string
    there is no data for the component, and the copy value is a string. *)
Lemma empty_body_copy_value_is_a_string :
  ~ (forall config p st tree,
       Result config p st = Ok tree ->
       truthy (data st) = false ->
       forall s,
         map (prop "copyValue") (find "CopyButton" tree) <> [Some (VStr s)]).
Proof.
  intros H.
  exact (H sample_config sample_props empty_body _ eq_refl eq_refl ""
           eq_refl).
Qed.

(** C10, amended: the copy button is given [cleanOutput], which the text
    block shows too.  With truthy data it is the output in which every
    backslash-n has become a line feed and every pair of adjacent line feeds
    has then been deleted: it holds no blank line, and it is the raw output
    exactly when the raw output has no backslash-n and no blank line.  With
    falsy data it is [data] itself: undefined or null before a response, the
    empty string for an empty body, and never another string. *)
Theorem copy_value_is_normalized_output config p st tree :
  Result config p st = Ok tree ->
  exists v,
    map (prop "copyValue") (find "CopyButton" tree) = [Some v] /\
    (truthy (data st) = true ->
     exists output,
       member (data st) "output" = VStr output /\
       v = VStr (delete_pairs (unescape output)) /\
       has_blank_line (delete_pairs (unescape output)) = false /\
       (v = VStr output <->
        has_escape output = false /\ has_blank_line output = false) /\
       find "Box" tree = [Elem "Box" [] [Expr v]]) /\
    (truthy (data st) = false ->
     v = data st /\ truthy v = false /\ forall s, v = VStr s -> s = "") /\
    (data st = VUndefined -> v = VUndefined) /\
    (data st = VNull -> v = VNull).
Proof.
  intros H. apply Result_inv in H as (v & Hv & ->).
  exists v. rewrite find_view_CopyButton, find_view_Box.
  split; [reflexivity |].
  unfold cleanOutput in Hv.
  split; [| split; [| split]].
  - intros Ht. rewrite Ht in *.
    destruct (member (data st) "output") as [| | | | output | | |];
      try discriminate.
    injection Hv as <-. exists output.
    rewrite normalize_spelled_out.
    split; [reflexivity |]. split; [reflexivity |].
    split; [apply delete_pairs_no_blank_line |].
    split; [| reflexivity].
    rewrite <- normalize_spelled_out, <- normalize_fixes.
    split; [now intros [= ->] | now intros ->].
  - intros Hf. rewrite Hf in Hv. injection Hv as <-.
    split; [reflexivity |]. split; [exact Hf |].
    intros s Hs. rewrite Hs in Hf. cbn in Hf.
    apply negb_false_iff in Hf. now apply String.eqb_eq in Hf.
  - intros Hd. rewrite Hd in Hv. now injection Hv as <-.
  - intros Hd. rewrite Hd in Hv. now injection Hv as <-.
Qed.

Lemma copy_value_is_normalized_output_witness :
  let tree :=
    view sample_config sample_props answered
      (VStr ("line 1" ++ nl ++ "line 2")) in
  exists v,
    map (prop "copyValue") (find "CopyButton" tree) = [Some v] /\
    (truthy (data answered) = true ->
     exists output,
       member (data answered) "output" = VStr output /\
       v = VStr (delete_pairs (unescape output)) /\
       has_blank_line (delete_pairs (unescape output)) = false /\
       (v = VStr output <->
        has_escape output = false /\ has_blank_line output = false) /\
       find "Box" tree = [Elem "Box" [] [Expr v]]) /\
    (truthy (data answered) = false ->
     v = data answered /\ truthy v = false /\
     forall s, v = VStr s -> s = "") /\
    (data answered = VUndefined -> v = VUndefined) /\
    (data answered = VNull -> v = VNull).
Proof.
  exact (copy_value_is_normalized_output sample_config sample_props
           answered _ eq_refl).
Defined.

(** ** The guarded reads of the error *)

Lemma truthy_not_nullish v : truthy v = true -> nullish v = false.
Proof. destruct v; cbn; congruence. Qed.

Lemma opt_read_never_throws v k : opt_read v k = Ok (opt_member v k).
Proof.
  unfold opt_read, opt_member, read. now destruct (nullish v).
Qed.

Lemma read_response_data_guarded error field :
  truthy error = true ->
  read_response_data error field = Ok (response_data error field).
Proof.
  intros He. unfold read_response_data, response_data.
  unfold read at 1. rewrite (truthy_not_nullish _ He). cbn [bind].
  rewrite opt_read_never_throws. cbn [bind].
  now rewrite opt_read_never_throws.
Qed.

(** X7: read by read, with a TypeError for every member read of null or
    undefined, the expressions of lines 71-75 and 130 never throw, for any
    error value whatever: they yield the keywords, the message and the
    status that are rendered.  The guards are what makes it so: for an
    error without a response the chain yields undefined, where the same
    chain without [?.] throws; and such an error is rendered with status
    ["error"], no keywords, and its own message or the configured one. *)
Theorem guarded_reads_never_throw config error :
  eval_errorKw error = Ok (errorKw error) /\
  eval_errorMsg config error = Ok (errorMsg config error) /\
  eval_alertStatus error =
    Ok (if truthy error then Some (alertStatus error) else None) /\
  (truthy error = true ->
   nullish (member error "response") = true ->
   (forall field,
      read_response_data error field = Ok VUndefined /\
      read_response_data_unguarded error field = Throw TypeError) /\
   errorKw error = VArr [] /\
   alertStatus error = VStr "error" /\
   errorMsg config error =
     (if truthy (member error "message") then member error "message"
      else VStr (general (messages config)))).
Proof.
  unfold eval_errorKw, eval_errorMsg, eval_alertStatus, and_then, or_else,
    errorKw, errorMsg, alertStatus, and_, or_.
  destruct (truthy error) eqn:He.
  - rewrite !(read_response_data_guarded _ _ He). cbn [bind].
    unfold read. rewrite (truthy_not_nullish _ He). cbn [bind].
    split; [now destruct (truthy (response_data error "keywords")) |].
    split.
    { destruct (truthy (response_data error "output")) eqn:Ho; cbn [bind];
        rewrite ?Ho; [reflexivity |].
      destruct (truthy (member error "message")) eqn:Hm; cbn [bind];
        rewrite ?Hm; reflexivity. }
    split; [now destruct (truthy (response_data error "alert")) |].
    intros _ Hr.
    assert (Hmissing : forall field, response_data error field = VUndefined).
    { intros field. unfold response_data, opt_member. now rewrite Hr. }
    split.
    { intros field. split.
      - now rewrite (read_response_data_guarded _ _ He), Hmissing.
      - unfold read_response_data_unguarded, read.
        rewrite (truthy_not_nullish _ He). cbn [bind]. now rewrite Hr. }
    rewrite !Hmissing. cbn [truthy].
    split; [reflexivity |]. split; [reflexivity |].
    now destruct (truthy (member error "message")).
  - cbn [bind]. rewrite He. cbn [bind]. rewrite He.
    split; [reflexivity |]. split; [reflexivity |]. split; [reflexivity |].
    discriminate.
Qed.

Lemma guarded_reads_never_throw_witness :
  (forall field,
     read_response_data (error network_error) field = Ok VUndefined /\
     read_response_data_unguarded (error network_error) field =
       Throw TypeError) /\
  errorKw (error network_error) = VArr [] /\
  alertStatus (error network_error) = VStr "error" /\
  errorMsg sample_config (error network_error) = VStr "Network Error".
Proof.
  exact (proj2 (proj2 (proj2 (guarded_reads_never_throw sample_config
                                (error network_error))))
           eq_refl eq_refl).
Defined.

(** ** Keywords with parentheses *)







